(** * Voice chatbot (app.py): bounded chat history, the listen/respond cycle,
      voice selection and the JSON export.

    The program is a Streamlit script.  Its own logic is the bookkeeping
    around the calls to the speech recogniser, the language model, the
    speech synthesiser and the file system; those calls are modelled as
    answers read from an environment record, and everything the script
    does with the answers is embedded below as the script writes it. *)

From Stdlib Require Import ZArith List String Ascii Lia.
From Stdlib Require QArith.
From stdpp Require Import base list strings gmap.

Local Open Scope string_scope.
Local Open Scope list_scope.
Local Open Scope Z_scope.

(** ** Configuration (class Config) *)

(** [os.path.join(path, b)] on POSIX: a [b] that starts with the separator
    replaces [path]; no separator is added after an empty [path] or after
    one that already ends with it. *)
Definition starts_with_sep (s : string) : bool :=
  match s with
  | String c _ => Ascii.eqb c "/"
  | EmptyString => false
  end.

Fixpoint ends_with_sep (s : string) : bool :=
  match s with
  | EmptyString => false
  | String c EmptyString => Ascii.eqb c "/"
  | String _ s' => ends_with_sep s'
  end.

Definition os_path_join (path b : string) : string :=
  if starts_with_sep b then b
  else if String.eqb path "" || ends_with_sep path then path +:+ b
  else path +:+ "/" +:+ b.

Module Config.
Definition LLM_MODEL : string := "llama3-8b-8192".
Definition MAX_TOKENS : Z := 20.
(* the float literal 0.3; the script only passes it on *)
Definition TEMPERATURE : QArith_base.Q := QArith_base.Qmake 3 10.
Definition MAX_HISTORY_LENGTH : Z := 50.
Definition LISTEN_TIMEOUT : Z := 5.
(* os.path.join(os.getcwd(), "temp_audio"), given the working directory *)
Definition TEMP_DIR (cwd : string) : string := os_path_join cwd "temp_audio".
Definition DEFAULT_VOICE : string := "en-US-JennyNeural".
End Config.

(** ** Data *)

(** A chat message: the dict [{"role": ..., "content": ...}]. *)
Record Message : Type := mkMessage { role : string; content : string }.

(** An entry of [st.session_state.available_voices]. *)
Record Voice : Type := mkVoice { name : string; display : string }.

(** An entry of the list returned by [edge_tts.list_voices()], restricted to
    the two keys the script reads. *)
Record RawVoice : Type := mkRawVoice { ShortName : string; Locale : string }.

Definition History : Type := list Message.
Bind Scope list_scope with History.

(** ** Python list slicing [l[start:]] *)

(** A negative start counts from the end and is clamped at 0; a
    non-negative one is clamped at the length. *)
Definition py_slice_from {A : Type} (l : list A) (start : Z) : list A :=
  let n := Z.of_nat (length l) in
  let i := if start <? 0 then Z.max (n + start) 0 else Z.min start n in
  drop (Z.to_nat i) l.

(** ** limit_history, on the value of [st.session_state.chat_history] *)

Definition limit_history_list (h : History) : History :=
  if Z.of_nat (length h) >? Config.MAX_HISTORY_LENGTH
  then py_slice_from h (- Config.MAX_HISTORY_LENGTH)
  else h.

(** ** Exceptions, collaborator answers and control results *)

(** The exception classes the script names, all subclasses of [Exception];
    [OtherException] stands for any other subclass ([OSError], the model
    client's API errors, [IndexError], ...). *)
Inductive exn_class : Type :=
| WaitTimeoutError
| RequestError
| UnknownValueError
| PygameError
| NoAudioReceived
| OtherException.

(** An exception object: its class and [str(e)]. *)
Record exn : Type := mkExn { exn_cls : exn_class; exn_str : string }.

(** What can propagate out of a block: an [Exception], or the
    [RerunException] of [st.rerun()], which derives from [BaseException]
    and is therefore not caught by [except Exception]. *)
Inductive signal : Type :=
| Exc (e : exn)
| Rerun.

(** The answer of an external call: a value, or an exception raised. *)
Inductive answer (A : Type) : Type :=
| Ok (a : A)
| Fails (e : exn).
Arguments Ok {A} a.
Arguments Fails {A} e.

(** How a block of statements ends: it runs to its end with a value, it
    executes [return], or something propagates. *)
Inductive result (A : Type) : Type :=
| Normal (a : A)
| Returned
| Raised (s : signal).
Arguments Normal {A} a.
Arguments Returned {A}.
Arguments Raised {A} s.

(** ** The state the script works on *)

Inductive FileKind : Type := RegularFile | Directory.

(** What the page shows: [st.write], [st.warning], [st.error], [st.success]. *)
Inductive UiEvent : Type :=
| UiWrite (s : string)
| UiWarning (s : string)
| UiError (s : string)
| UiSuccess (s : string).

(** The keyword arguments of [client.chat.completions.create]. *)
Record Request : Type := mkRequest {
  messages : list Message;
  model : string;
  max_tokens : Z;
  temperature : QArith_base.Q
}.

(** [st.session_state] (first four fields), the entries of
    [Config.TEMP_DIR] by name, the messages reported on the page in order,
    and the requests sent to the language model and to the synthesiser
    (text, voice) in order. *)
Record World : Type := mkWorld {
  selected_voice : string;
  available_voices : list Voice;
  chat_history : History;
  system_tested : bool;
  temp_dir : gmap string FileKind;
  ui : list UiEvent;
  llm_requests : list Request;
  tts_requests : list (string * string)
}.

(** The answers of the collaborators during one run of the cycle. *)
Record Env : Type := mkEnv {
  cwd : string;                       (* os.getcwd() *)
  format_exc : exn -> string;         (* traceback.format_exc() *)
  microphone : answer unit;           (* entering sr.Microphone() *)
  listen : answer string;             (* recognizer.listen, then get_wav_data() *)
  audio_uuid : string;                (* str(uuid.uuid4()), first draw *)
  open_audio : answer unit;           (* open(temp_filename, 'wb') *)
  write_audio : answer unit;          (* temp_file.write(audio_data) *)
  recognize_google : answer string;   (* recognizer.recognize_google(audio) *)
  remove_audio : answer unit;         (* os.remove(temp_filename) *)
  llm_create : answer string;         (* create(...).choices[0].message.content *)
  tts_uuid : string;                  (* str(uuid.uuid4()), second draw *)
  tts_save : answer unit;             (* communicate.save(output_file) *)
  tts_partial_file : bool;            (* a failed save left the file behind *)
  mixer_play : answer unit;           (* music.load, music.play, wait *)
  mixer_unload : answer unit;         (* pygame.mixer.music.unload() *)
  remove_tts : answer unit;           (* os.remove(temp_file) in speak *)
  unlink : string -> answer unit      (* os.unlink(file_path) in the sweep *)
}.

Definition set_selected_voice (v : string) (w : World) : World :=
  mkWorld v (available_voices w) (chat_history w) (system_tested w)
          (temp_dir w) (ui w) (llm_requests w) (tts_requests w).

Definition set_available_voices (vs : list Voice) (w : World) : World :=
  mkWorld (selected_voice w) vs (chat_history w) (system_tested w)
          (temp_dir w) (ui w) (llm_requests w) (tts_requests w).

Definition set_chat_history (h : History) (w : World) : World :=
  mkWorld (selected_voice w) (available_voices w) h (system_tested w)
          (temp_dir w) (ui w) (llm_requests w) (tts_requests w).

Definition set_temp_dir (d : gmap string FileKind) (w : World) : World :=
  mkWorld (selected_voice w) (available_voices w) (chat_history w) (system_tested w)
          d (ui w) (llm_requests w) (tts_requests w).

Definition set_ui (u : list UiEvent) (w : World) : World :=
  mkWorld (selected_voice w) (available_voices w) (chat_history w) (system_tested w)
          (temp_dir w) u (llm_requests w) (tts_requests w).

Definition set_llm_requests (r : list Request) (w : World) : World :=
  mkWorld (selected_voice w) (available_voices w) (chat_history w) (system_tested w)
          (temp_dir w) (ui w) r (tts_requests w).

Definition set_tts_requests (r : list (string * string)) (w : World) : World :=
  mkWorld (selected_voice w) (available_voices w) (chat_history w) (system_tested w)
          (temp_dir w) (ui w) (llm_requests w) r.

(** ** A state monad with Python's control flow *)

Definition M (A : Type) : Type := World -> result A * World.

Definition ret {A : Type} (a : A) : M A := fun w => (Normal a, w).

Definition bind {A B : Type} (m : M A) (k : A -> M B) : M B :=
  fun w =>
    match m w with
    | (Normal a, w') => k a w'
    | (Returned, w') => (Returned, w')
    | (Raised s, w') => (Raised s, w')
    end.

Declare Scope py_scope.
Delimit Scope py_scope with py.
Notation "'let*' x ':=' m 'in' k" := (bind m (fun x => k))
  (at level 10, x name, m at level 100, k at level 200) : py_scope.
Notation "m '>>' k" := (bind m (fun _ => k))
  (at level 100, k at level 200, right associativity) : py_scope.
Local Open Scope py_scope.

Definition gets {A : Type} (f : World -> A) : M A := fun w => (Normal (f w), w).
Definition modify (f : World -> World) : M unit := fun w => (Normal tt, f w).

(** [raise e], the [return] statement, and [st.rerun()]. *)
Definition raise {A : Type} (e : exn) : M A := fun w => (Raised (Exc e), w).
Definition return_ {A : Type} : M A := fun w => (Returned, w).
Definition st_rerun {A : Type} : M A := fun w => (Raised Rerun, w).

(** An external call whose answer the environment gives. *)
Definition ask {A : Type} (a : answer A) : M A :=
  match a with
  | Ok x => ret x
  | Fails e => raise e
  end.

(** [try: body  except ...: handler]: the handler function returns [None]
    for an exception that no [except] clause matches. *)
Definition try_except {A : Type} (body : M A) (handler : exn -> option (M A)) : M A :=
  fun w =>
    match body w with
    | (Raised (Exc e), w') =>
        match handler e with
        | Some h => h w'
        | None => (Raised (Exc e), w')
        end
    | r => r
    end.

(** [try: body  finally: fin]: [fin] always runs; when it ends normally the
    outcome of [body] stands, otherwise the outcome of [fin] replaces it. *)
Definition try_finally {A : Type} (body : M A) (fin : M unit) : M A :=
  fun w =>
    let (r, w1) := body w in
    match fin w1 with
    | (Normal _, w2) => (r, w2)
    | (Returned, w2) => (Returned, w2)
    | (Raised s, w2) => (Raised s, w2)
    end.

(** Calling a function whose body is [body]: a [return] ends the call. *)
Definition call (body : M unit) : M unit :=
  fun w =>
    match body w with
    | (Returned, w') => (Normal tt, w')
    | r => r
    end.

(** [for x in l: body x]. *)
Fixpoint for_each {A : Type} (l : list A) (body : A -> M unit) : M unit :=
  match l with
  | [] => ret tt
  | x :: l' => body x >> for_each l' body
  end.

(** ** Streamlit output and the file system *)

Definition st_write (s : string) : M unit := modify (fun w => set_ui (ui w ++ [UiWrite s]) w).
Definition st_warning (s : string) : M unit := modify (fun w => set_ui (ui w ++ [UiWarning s]) w).
Definition st_error (s : string) : M unit := modify (fun w => set_ui (ui w ++ [UiError s]) w).
Definition st_success (s : string) : M unit := modify (fun w => set_ui (ui w ++ [UiSuccess s]) w).

Definition os_listdir : M (list string) :=
  gets (fun w => (map_to_list (temp_dir w)).*1).

Definition os_path_isfile (f : string) : M bool :=
  gets (fun w => match temp_dir w !! f with Some RegularFile => true | _ => false end).

Definition os_path_exists (f : string) : M bool :=
  gets (fun w => match temp_dir w !! f with Some _ => true | None => false end).

(** [os.remove] / [os.unlink] of an entry of the directory: only a regular
    file can be removed, and the operating system may refuse. *)
Definition os_remove (a : answer unit) (f : string) : M unit :=
  let* k := gets (fun w => temp_dir w !! f) in
  match k with
  | Some RegularFile => ask a >> modify (fun w => set_temp_dir (delete f (temp_dir w)) w)
  | Some Directory => raise (mkExn OtherException "IsADirectoryError")
  | None => raise (mkExn OtherException "FileNotFoundError")
  end.

(** [open(f, 'wb')]: creates (or truncates) the regular file. *)
Definition open_wb (a : answer unit) (f : string) : M unit :=
  let* k := gets (fun w => temp_dir w !! f) in
  match k with
  | Some Directory => raise (mkExn OtherException "IsADirectoryError")
  | _ => ask a >> modify (fun w => set_temp_dir (<[f := RegularFile]> (temp_dir w)) w)
  end.

(** ** Voices *)

(** [get_available_voices]: the catalogue of the synthesiser, or the empty
    list when asking for it fails. *)
Definition get_available_voices (catalog : answer (list RawVoice)) : M (list RawVoice) :=
  try_except (ask catalog)
    (fun e => Some (st_error ("Error getting voices: " +:+ exn_str e) >> ret [])).

Definition initialize_voices (catalog : answer (list RawVoice)) : M unit :=
  let* voices := get_available_voices catalog in
  modify (set_available_voices
            (map (fun voice => mkVoice (ShortName voice)
                                       (Locale voice +:+ " - " +:+ ShortName voice))
                 voices)).

(** [l.index(x)]: the first position of [x]; [None] stands for [ValueError]. *)
Fixpoint list_index (x : string) (l : list string) : option nat :=
  match l with
  | [] => None
  | y :: l' => if String.eqb y x then Some 0%nat else option_map S (list_index x l')
  end.

(** [st.selectbox(label, options, index)]: the option the user picked in
    the browser when there is one, the option at [index] otherwise. *)
Definition st_selectbox (options : list string) (index : nat) (pick : option nat) : M string :=
  match from_option (fun i => options !! i) None pick with
  | Some d => ret d
  | None =>
      match options !! index with
      | Some d => ret d
      | None => raise (mkExn OtherException "StreamlitAPIException")
      end
  end.

(** The preselected position: [voice_names.index(Config.DEFAULT_VOICE)], and
    0 when that raises [ValueError]. *)
Definition default_idx (voice_names : list string) : nat :=
  match list_index Config.DEFAULT_VOICE voice_names with
  | Some i => i
  | None => 0%nat
  end.

(** The voice picker of the sidebar (the [if st.session_state.available_voices]
    statement of the script). *)
Definition sidebar_voice_picker (pick : option nat) : M unit :=
  let* voices := gets available_voices in
  match voices with
  | _ :: _ =>
      let voice_options := map display voices in
      let voice_names := map name voices in
      let* selected_display := st_selectbox voice_options (default_idx voice_names) pick in
      match list_index selected_display voice_options with
      | None => raise (mkExn OtherException "ValueError")
      | Some selected_idx =>
          match voice_names !! selected_idx with
          | None => raise (mkExn OtherException "IndexError")
          | Some v => modify (set_selected_voice v)
          end
      end
  | [] => st_warning "No voices available"
  end.

(** The session state as the script initialises it. *)
Definition initial_world (d : gmap string FileKind) : World :=
  mkWorld Config.DEFAULT_VOICE [] [] false d [] [] [].

(** ** Speech *)

(** [edge_tts.Communicate(text, voice).save(output_file)]. *)
Definition communicate_save (env : Env) (text output_file : string) : M unit :=
  let* voice := gets selected_voice in
  modify (fun w => set_tts_requests (tts_requests w ++ [(text, voice)]) w) >>
  match tts_save env with
  | Ok _ => modify (fun w => set_temp_dir (<[output_file := RegularFile]> (temp_dir w)) w)
  | Fails e =>
      (if tts_partial_file env
       then modify (fun w => set_temp_dir (<[output_file := RegularFile]> (temp_dir w)) w)
       else ret tt) >>
      raise e
  end.

Definition generate_speech (env : Env) (text output_file : string) : M bool :=
  try_except
    (communicate_save env text output_file >> ret true)
    (fun e =>
       match exn_cls e with
       | NoAudioReceived =>
           Some (let* voice := gets selected_voice in
                 st_error ("Voice " +:+ voice +:+ " failed to generate speech") >>
                 ret false)
       | _ => Some (st_error ("Error generating speech: " +:+ exn_str e) >> ret false)
       end).

Definition speak (env : Env) (text : string) : M unit :=
  call
    (try_except
       (let temp_file := "tts_" +:+ tts_uuid env +:+ ".mp3" in
        generate_speech env text temp_file >>
        let* generated := os_path_exists temp_file in
        (if negb generated
         then st_error "Speech file was not generated" >> return_
         else ret tt) >>
        try_except (ask (mixer_play env))
          (fun pe =>
             match exn_cls pe with
             | PygameError => Some (st_error ("Pygame error: " +:+ exn_str pe))
             | _ => None
             end) >>
        ask (mixer_unload env) >>
        os_remove (remove_tts env) temp_file)
       (fun e =>
          Some (st_error ("Speech error: " +:+ exn_str e) >>
                st_error (format_exc env e)))).

(** ** The history and the cycle *)

Definition limit_history : M unit :=
  let* h := gets chat_history in
  if Z.of_nat (length h) >? Config.MAX_HISTORY_LENGTH
  then modify (set_chat_history (py_slice_from h (- Config.MAX_HISTORY_LENGTH)))
  else ret tt.

(** [st.session_state.chat_history.append(m)]. *)
Definition chat_history_append (m : Message) : M unit :=
  modify (fun w => set_chat_history (chat_history w ++ [m]) w).

(** The body of the loop of [cleanup_old_files], for one directory entry. *)
Definition cleanup_file (env : Env) (file : string) : M unit :=
  let file_path := os_path_join (Config.TEMP_DIR (cwd env)) file in
  try_except
    (let* is_file := os_path_isfile file in
     if is_file then os_remove (unlink env file) file else ret tt)
    (fun e =>
       Some (st_error ("Error deleting " +:+ file_path +:+ ": " +:+ exn_str e))).

Definition cleanup_old_files (env : Env) : M unit :=
  let* files := os_listdir in
  for_each files (cleanup_file env).

Definition system_message : Message :=
  mkMessage "system" "You are a concise assistant. Always respond in 40 words or less.".

(** [client.chat.completions.create(...)], read up to the reply's text. *)
Definition chat_completions_create (env : Env) (req : Request) : M string :=
  modify (fun w => set_llm_requests (llm_requests w ++ [req]) w) >>
  ask (llm_create env).

Definition transcribe_and_generate_response (env : Env) : M unit :=
  call
    (try_finally
       (try_except
          ((* Record audio *)
           ask (microphone env) >>
           st_write "Please speak something..." >>
           let* audio_data :=
             try_except (ask (listen env))
               (fun e =>
                  match exn_cls e with
                  | WaitTimeoutError =>
                      Some (st_warning "No speech detected. Please try again." >> return_)
                  | _ => None
                  end) in
           (if String.eqb audio_data ""
            then st_warning "No audio was recorded. Please try again." >> return_
            else ret tt) >>
           (* Process audio *)
           let temp_filename := "audio_" +:+ audio_uuid env +:+ ".wav" in
           try_finally
             (open_wb (open_audio env) temp_filename >>
              ask (write_audio env) >>
              let* transcribed_text := ask (recognize_google env) in
              chat_history_append (mkMessage "user" transcribed_text))
             (let* present := os_path_exists temp_filename in
              if present then os_remove (remove_audio env) temp_filename else ret tt) >>
           (* Generate response *)
           let* history := gets chat_history in
           let* llm_response :=
             chat_completions_create env
               (mkRequest (system_message :: history) Config.LLM_MODEL
                          Config.MAX_TOKENS Config.TEMPERATURE) in
           chat_history_append (mkMessage "assistant" llm_response) >>
           (* Limit history and speak response *)
           limit_history >>
           speak env llm_response >>
           st_rerun)
          (fun e =>
             match exn_cls e with
             | RequestError => Some (st_error ("Could not request results: " +:+ exn_str e))
             | UnknownValueError =>
                 Some (st_error "Could not understand audio. Please try again.")
             | _ =>
                 Some (st_error ("An error occurred: " +:+ exn_str e) >>
                       st_error (format_exc env e))
             end))
       (cleanup_old_files env)).


(** ** Vocabulary of the statements *)

Definition user_turn (t : string) : Message := mkMessage "user" t.
Definition assistant_turn (t : string) : Message := mkMessage "assistant" t.

(** The request the cycle builds from the history [h] it reads. *)
Definition request_for (h : History) : Request :=
  mkRequest (system_message :: h) Config.LLM_MODEL Config.MAX_TOKENS Config.TEMPERATURE.

(** The names of the two temporary files of a cycle. *)
Definition audio_file (env : Env) : string := "audio_" +:+ audio_uuid env +:+ ".wav".
Definition tts_file (env : Env) : string := "tts_" +:+ tts_uuid env +:+ ".mp3".

(** [w'] differs from [w] at most in the temporary directory, the
    synthesiser log and by further messages on the page. *)
Definition session_frame (w w' : World) : Prop :=
  chat_history w' = chat_history w /\
  llm_requests w' = llm_requests w /\
  selected_voice w' = selected_voice w /\
  available_voices w' = available_voices w /\
  exists evs, ui w' = ui w ++ evs.

Definition is_report (e : UiEvent) : bool :=
  match e with
  | UiWarning _ | UiError _ => true
  | _ => false
  end.

Definition is_error (e : UiEvent) : bool :=
  match e with
  | UiError _ => true
  | _ => false
  end.

(** What the [except] clauses of the cycle print for the exception [e]. *)
Definition error_report (env : Env) (e : exn) : list UiEvent :=
  match exn_cls e with
  | RequestError => [UiError ("Could not request results: " +:+ exn_str e)]
  | UnknownValueError => [UiError "Could not understand audio. Please try again."]
  | _ => [UiError ("An error occurred: " +:+ exn_str e); UiError (format_exc env e)]
  end.

(** The answers under which the cycle gets as far as calling
    [recognize_google]: the microphone opens, some audio is captured, and
    the audio is written to its temporary file. *)
Definition recorded (env : Env) (w : World) : Prop :=
  microphone env = Ok tt /\
  (exists d, listen env = Ok d /\ d <> "") /\
  temp_dir w !! audio_file env <> Some Directory /\
  open_audio env = Ok tt /\
  write_audio env = Ok tt.

(** ... and the recogniser answers with the text [t]. *)
Definition transcribed (env : Env) (w : World) (t : string) : Prop :=
  recorded env w /\ recognize_google env = Ok t.

(** The four ways one run of the cycle can end, with what it leaves in the
    history, in the log of model requests and on the page. *)
Inductive cycle_outcome (env : Env) (w : World) : result unit -> World -> Prop :=
| NoTranscript w' evs :
    (forall t, ~ transcribed env w t) ->
    chat_history w' = chat_history w ->
    llm_requests w' = llm_requests w ->
    ui w' = ui w ++ evs -> existsb is_report evs = true ->
    cycle_outcome env w (Normal tt) w'
| TranscriptKept t e w' evs :
    transcribed env w t -> remove_audio env = Fails e ->
    chat_history w' = chat_history w ++ [user_turn t] ->
    llm_requests w' = llm_requests w ->
    ui w' = ui w ++ [UiWrite "Please speak something..."] ++ error_report env e ++ evs ->
    cycle_outcome env w (Normal tt) w'
| GenerationFailed t e w' evs :
    transcribed env w t -> remove_audio env = Ok tt -> llm_create env = Fails e ->
    chat_history w' = chat_history w ++ [user_turn t] ->
    llm_requests w' = llm_requests w ++ [request_for (chat_history w ++ [user_turn t])] ->
    ui w' = ui w ++ [UiWrite "Please speak something..."] ++ error_report env e ++ evs ->
    cycle_outcome env w (Normal tt) w'
| Responded t a w' :
    transcribed env w t -> remove_audio env = Ok tt -> llm_create env = Ok a ->
    chat_history w' = limit_history_list (chat_history w ++ [user_turn t; assistant_turn a]) ->
    llm_requests w' = llm_requests w ++ [request_for (chat_history w ++ [user_turn t])] ->
    cycle_outcome env w (Raised Rerun) w'.


(** Several cycles in a row, each started by a press of "Start Talking". *)
Fixpoint run_cycles (envs : list Env) (w : World) : World :=
  match envs with
  | [] => w
  | env :: envs' => run_cycles envs' (transcribe_and_generate_response env w).2
  end.

(** Every one of these cycles ends with the reply spoken and [st.rerun()]. *)
Fixpoint all_responded (envs : list Env) (w : World) : Prop :=
  match envs with
  | [] => True
  | env :: envs' =>
      (transcribe_and_generate_response env w).1 = Raised Rerun /\
      all_responded envs' (transcribe_and_generate_response env w).2
  end.

Definition answer_text (a : answer string) : string :=
  match a with
  | Ok s => s
  | Fails _ => ""
  end.

(** The two turns of a cycle: what was recognised and what the model said. *)
Definition turns_of (env : Env) : list Message :=
  [user_turn (answer_text (recognize_google env));
   assistant_turn (answer_text (llm_create env))].

(** ** The clock: [datetime.now()] *)

Record datetime : Type := mkDatetime {
  year : N;
  month : N;
  day : N;
  hour : N;
  minute : N;
  second : N;
  microsecond : N
}.

Definition is_leap (y : N) : bool :=
  ((y mod 4 =? 0) && negb (y mod 100 =? 0) || (y mod 400 =? 0))%N.

Definition days_in_month (y m : N) : N :=
  match m with
  | 2 => if is_leap y then 29 else 28
  | 4 | 6 | 9 | 11 => 30
  | _ => 31
  end%N.

(** The values a [datetime] object can hold. *)
Definition valid_datetime (dt : datetime) : bool :=
  ((1 <=? year dt) && (year dt <=? 9999) &&
   (1 <=? month dt) && (month dt <=? 12) &&
   (1 <=? day dt) && (day dt <=? days_in_month (year dt) (month dt)) &&
   (hour dt <? 24) && (minute dt <? 60) && (second dt <? 60) &&
   (microsecond dt <? 1000000))%N.

Definition digit (d : N) : ascii := ascii_of_N (48 + d).

(** [format(n, '0<width>d')] for [n] below [10 ^ width]. *)
Fixpoint zero_pad (width : nat) (n : N) : list ascii :=
  match width with
  | O => []
  | S w => zero_pad w (n / 10) ++ [digit (n mod 10)]
  end.

Definition chars (s : string) : list ascii := list_ascii_of_string s.

(** [dt.isoformat()] of a naive datetime: [YYYY-MM-DDTHH:MM:SS], followed
    by [.ffffff] when the microseconds are not zero. *)
Definition isoformat (dt : datetime) : list ascii :=
  zero_pad 4 (year dt) ++ chars "-" ++ zero_pad 2 (month dt) ++ chars "-" ++
  zero_pad 2 (day dt) ++ chars "T" ++ zero_pad 2 (hour dt) ++ chars ":" ++
  zero_pad 2 (minute dt) ++ chars ":" ++ zero_pad 2 (second dt) ++
  (if (microsecond dt =? 0)%N then [] else chars "." ++ zero_pad 6 (microsecond dt)).

(** [dt.strftime('%Y%m%d_%H%M%S')].  For years below 1000 the C library
    decides whether [%Y] is padded; the statements take years from 1000. *)
Definition strftime_stamp (dt : datetime) : list ascii :=
  zero_pad 4 (year dt) ++ zero_pad 2 (month dt) ++ zero_pad 2 (day dt) ++ chars "_" ++
  zero_pad 2 (hour dt) ++ zero_pad 2 (minute dt) ++ zero_pad 2 (second dt).

(** ** Python strings as code points *)

(** A Python [str] is a sequence of code points.  The strings of the script
    are held in [string] as their UTF-8 encoding, which is also how a
    literal of this file is read; concatenation and comparison, which is
    all the script itself does with them, act on the encoding as they act on
    the [str].  [json.dumps] looks at the code points, so the export decodes:
    well-formed UTF-8 is read as the code point it encodes, and a byte that
    belongs to no well-formed sequence stands for the lone surrogate
    U+DC80..U+DCFF, which is how Python itself keeps undecodable bytes in a
    [str] (PEP 383).  Every [string] so denotes one [str]; the [str]s
    denoted are those without other surrogate code points. *)
Definition byte (c : ascii) : N := N_of_ascii c.

Definition continuation (b : N) : bool := ((0x80 <=? b) && (b <? 0xC0))%N.

Definition is_high_surrogate (n : N) : bool := ((0xD800 <=? n) && (n <? 0xDC00))%N.
Definition is_low_surrogate (n : N) : bool := ((0xDC00 <=? n) && (n <? 0xE000))%N.
Definition is_surrogate (n : N) : bool := ((0xD800 <=? n) && (n <? 0xE000))%N.

(** The code points that two, three and four bytes encode. *)
Definition two_bytes (b0 b1 : N) : N := ((b0 - 0xC0) * 64 + (b1 - 0x80))%N.
Definition three_bytes (b0 b1 b2 : N) : N :=
  (((b0 - 0xE0) * 64 + (b1 - 0x80)) * 64 + (b2 - 0x80))%N.
Definition four_bytes (b0 b1 b2 b3 : N) : N :=
  ((((b0 - 0xF0) * 64 + (b1 - 0x80)) * 64 + (b2 - 0x80)) * 64 + (b3 - 0x80))%N.

(** Well-formed sequences: a lead byte, continuation bytes, the shortest
    form, no surrogate, nothing above U+10FFFF. *)
Definition well_formed2 (b0 b1 : N) : bool :=
  ((0xC0 <=? b0) && (b0 <? 0xE0) && continuation b1 && (0x80 <=? two_bytes b0 b1))%N.

Definition well_formed3 (b0 b1 b2 : N) : bool :=
  ((0xE0 <=? b0) && (b0 <? 0xF0) && continuation b1 && continuation b2 &&
   (0x800 <=? three_bytes b0 b1 b2) && negb (is_surrogate (three_bytes b0 b1 b2)))%N.

Definition well_formed4 (b0 b1 b2 b3 : N) : bool :=
  ((0xF0 <=? b0) && (b0 <? 0xF8) && continuation b1 && continuation b2 && continuation b3 &&
   (0x10000 <=? four_bytes b0 b1 b2 b3) && (four_bytes b0 b1 b2 b3 <? 0x110000))%N.

Fixpoint utf8_decode (s : list ascii) : list N :=
  match s with
  | [] => []
  | c0 :: s1 =>
      let b0 := byte c0 in
      if (b0 <? 0x80)%N then b0 :: utf8_decode s1
      else
        match s1 with
        | c1 :: s2 =>
            if well_formed2 b0 (byte c1)
            then two_bytes b0 (byte c1) :: utf8_decode s2
            else
              match s2 with
              | c2 :: s3 =>
                  if well_formed3 b0 (byte c1) (byte c2)
                  then three_bytes b0 (byte c1) (byte c2) :: utf8_decode s3
                  else
                    match s3 with
                    | c3 :: s4 =>
                        if well_formed4 b0 (byte c1) (byte c2) (byte c3)
                        then four_bytes b0 (byte c1) (byte c2) (byte c3) :: utf8_decode s4
                        else (0xDC00 + b0)%N :: utf8_decode s1
                    | [] => (0xDC00 + b0)%N :: utf8_decode s1
                    end
              | [] => (0xDC00 + b0)%N :: utf8_decode s1
              end
        | [] => (0xDC00 + b0)%N :: utf8_decode s1
        end
  end.

(** The bytes that hold a code point. *)
Definition utf8_of_code_point (n : N) : list ascii :=
  if (n <? 0x80)%N then [ascii_of_N n]
  else if (n <? 0x800)%N
  then [ascii_of_N (0xC0 + n / 64); ascii_of_N (0x80 + n mod 64)]
  else if ((0xDC80 <=? n) && (n <? 0xDD00))%N then [ascii_of_N (n - 0xDC00)]
  else if (n <? 0x10000)%N
  then [ascii_of_N (0xE0 + n / 4096); ascii_of_N (0x80 + (n / 64) mod 64);
        ascii_of_N (0x80 + n mod 64)]
  else [ascii_of_N (0xF0 + n / 262144); ascii_of_N (0x80 + (n / 4096) mod 64);
        ascii_of_N (0x80 + (n / 64) mod 64); ascii_of_N (0x80 + n mod 64)].

Definition utf8_encode (l : list N) : list ascii := flat_map utf8_of_code_point l.

(** The code points of a string of the script. *)
Definition code_points (s : string) : list N := utf8_decode (list_ascii_of_string s).

(** All characters are in the 7-bit range. *)
Definition ascii_only (s : list ascii) : bool :=
  forallb (fun c => (byte c <? 0x80)%N) s.

(** [s.encode()], which is what [st.download_button] does with a [str]:
    the UTF-8 encoding, refused ([UnicodeEncodeError]) for a surrogate. *)
Definition str_encode (s : string) : option (list ascii) :=
  if existsb is_surrogate (code_points s) then None
  else Some (utf8_encode (code_points s)).

(** ** JSON values and [json.dumps(obj, indent=...)] *)

(** The values the export is made of: strings, lists and dicts with string
    keys (a dict keeps the order in which its keys were inserted). *)
Inductive json : Type :=
| JString (s : list N)
| JArray (items : list json)
| JObject (fields : list (list N * json)).

Definition dquote : ascii := ascii_of_nat 34.
Definition backslash : ascii := ascii_of_nat 92.

Definition hex_digit (d : N) : ascii :=
  if (d <? 10)%N then ascii_of_N (48 + d) else ascii_of_N (87 + d).

(** ['\\u{0:04x}'.format(n)] for [n] below 0x10000. *)
Definition u_escape (n : N) : list ascii :=
  [backslash; "u"%char; hex_digit (n / 4096); hex_digit ((n / 256) mod 16);
   hex_digit ((n / 16) mod 16); hex_digit (n mod 16)]%N.

(** One code point of a string, as [ensure_ascii=True] writes it: the quote
    and the backslash escaped, the short escapes, the character itself in
    [' '..'~'], [\uxxxx] for the others of the basic plane, and for a code
    point [n] above it the pair [\ud8xx\udcxx] of the surrogates
    [0xd800 | (n - 0x10000) >> 10] and [0xdc00 | (n - 0x10000) & 0x3ff]. *)
Definition escape_char (n : N) : list ascii :=
  if (n =? 34)%N then [backslash; dquote]
  else if (n =? 92)%N then [backslash; backslash]
  else if (n =? 8)%N then [backslash; "b"%char]
  else if (n =? 12)%N then [backslash; "f"%char]
  else if (n =? 10)%N then [backslash; "n"%char]
  else if (n =? 13)%N then [backslash; "r"%char]
  else if (n =? 9)%N then [backslash; "t"%char]
  else if ((32 <=? n) && (n <=? 126))%N then [ascii_of_N n]
  else if (n <? 0x10000)%N then u_escape n
  else u_escape (0xD800 + (n - 0x10000) / 1024) ++
       u_escape (0xDC00 + (n - 0x10000) mod 1024).

Definition encode_string (s : list N) : list ascii :=
  dquote :: flat_map escape_char s ++ [dquote].

Definition newline_indent (indent level : nat) : list ascii :=
  ascii_of_nat 10 :: repeat " "%char (indent * level).

Fixpoint join {A : Type} (sep : list A) (parts : list (list A)) : list A :=
  match parts with
  | [] => []
  | [x] => x
  | x :: parts' => x ++ sep ++ join sep parts'
  end.

(** The encoder with an indent: an empty container on one line, otherwise
    one item per line, one level deeper, separated by a comma. *)
Fixpoint encode (indent level : nat) (v : json) : list ascii :=
  match v with
  | JString s => encode_string s
  | JArray [] => chars "[]"
  | JArray items =>
      chars "[" ++ newline_indent indent (S level) ++
      join (chars "," ++ newline_indent indent (S level))
           (map (encode indent (S level)) items) ++
      newline_indent indent level ++ chars "]"
  | JObject [] => chars "{}"
  | JObject fields =>
      chars "{" ++ newline_indent indent (S level) ++
      join (chars "," ++ newline_indent indent (S level))
           (map (fun kv => encode_string (fst kv) ++ chars ": " ++
                           encode indent (S level) (snd kv)) fields) ++
      newline_indent indent level ++ chars "}"
  end.

Definition json_dumps (v : json) (indent : nat) : string :=
  string_of_list_ascii (encode indent 0 v).

(** ** The export *)

(** A message of the history as a JSON value. *)
Definition message_json (m : Message) : json :=
  JObject [(code_points "role", JString (code_points (role m)));
           (code_points "content", JString (code_points (content m)))].

(** The dict [history_data]. *)
Definition history_data (now : datetime) (h : History) : json :=
  JObject [(code_points "timestamp", JString (utf8_decode (isoformat now)));
           (code_points "messages", JArray (map message_json h))].

Definition download_chat_history (now : datetime) : M string :=
  let* h := gets chat_history in
  ret (json_dumps (history_data now h) 2).

(** The arguments of [st.download_button]. *)
Record DownloadButton : Type := mkDownloadButton {
  label : string;
  data : string;
  file_name : string;
  mime : string
}.

(** The "Download Chat History" button of the sidebar: when it is pressed
    the download button is shown.  The clock is read twice, for the
    document and then for the file name. *)
Definition sidebar_download (pressed : bool) (now_data now_name : datetime)
  : M (option DownloadButton) :=
  if pressed
  then
    let* data := download_chat_history now_data in
    ret (Some (mkDownloadButton
                 "Download JSON"
                 data
                 ("chat_history_" +:+ string_of_list_ascii (strftime_stamp now_name)
                                  +:+ ".json")
                 "application/json"))
  else ret None.

(** ** Reading the export back *)

(** Reading exactly [width] decimal digits. *)
Definition digit_value (c : ascii) : option N :=
  let n := N_of_ascii c in
  if ((48 <=? n) && (n <=? 57))%N then Some (n - 48)%N else None.

Fixpoint read_digits (width : nat) (acc : N) (s : list ascii) : option (N * list ascii) :=
  match width with
  | O => Some (acc, s)
  | S w =>
      match s with
      | c :: s' =>
          match digit_value c with
          | Some d => read_digits w (10 * acc + d)%N s'
          | None => None
          end
      | [] => None
      end
  end.

Definition expect (c : ascii) (s : list ascii) : option (list ascii) :=
  match s with
  | c' :: s' => if Ascii.eqb c c' then Some s' else None
  | [] => None
  end.

(** A reader of the ISO-8601 form [YYYY-MM-DDTHH:MM:SS[.ffffff]]: the
    fields must be there in full and must denote a date and a time. *)
Definition fromisoformat (s : list ascii) : option datetime :=
  '(y, s) ← read_digits 4 0 s;
  s ← expect "-" s;
  '(mo, s) ← read_digits 2 0 s;
  s ← expect "-" s;
  '(d, s) ← read_digits 2 0 s;
  s ← expect "T" s;
  '(h, s) ← read_digits 2 0 s;
  s ← expect ":" s;
  '(mi, s) ← read_digits 2 0 s;
  s ← expect ":" s;
  '(se, s) ← read_digits 2 0 s;
  '(us, s) ← match s with
             | [] => Some (0%N, [])
             | _ => s ← expect "." s; read_digits 6 0 s
             end;
  match s with
  | [] =>
      let dt := mkDatetime y mo d h mi se us in
      if valid_datetime dt then Some dt else None
  | _ => None
  end.

(** A reader of the stamp [YYYYMMDD_HHMMSS] of the file name: the six
    fields it shows. *)
Definition read_stamp (s : list ascii) : option (N * N * N * N * N * N) :=
  '(y, s) ← read_digits 4 0 s;
  '(mo, s) ← read_digits 2 0 s;
  '(d, s) ← read_digits 2 0 s;
  s ← expect "_" s;
  '(h, s) ← read_digits 2 0 s;
  '(mi, s) ← read_digits 2 0 s;
  '(se, s) ← read_digits 2 0 s;
  match s with
  | [] => Some (y, mo, d, h, mi, se)
  | _ => None
  end.

(** The tokens of a JSON text made of strings, arrays and objects. *)
Inductive token : Type :=
| TLBrace
| TRBrace
| TLBracket
| TRBracket
| TColon
| TComma
| TString (s : list N).

Definition hex_value (c : N) : option N :=
  if ((48 <=? c) && (c <=? 57))%N then Some (c - 48)%N
  else if ((97 <=? c) && (c <=? 102))%N then Some (c - 87)%N
  else if ((65 <=? c) && (c <=? 70))%N then Some (c - 55)%N
  else None.

(** The number that four hexadecimal digits write. *)
Definition hex4_value (h1 h2 h3 h4 : N) : option N :=
  match hex_value h1, hex_value h2, hex_value h3, hex_value h4 with
  | Some a, Some b, Some c, Some d => Some (((a * 16 + b) * 16 + c) * 16 + d)%N
  | _, _, _, _ => None
  end.

(** The character a short escape stands for. *)
Definition short_escape (e : N) : option N :=
  if (e =? 34)%N then Some 34%N            (* quote *)
  else if (e =? 92)%N then Some 92%N       (* backslash *)
  else if (e =? 47)%N then Some 47%N       (* / *)
  else if (e =? 98)%N then Some 8%N        (* b *)
  else if (e =? 102)%N then Some 12%N      (* f *)
  else if (e =? 110)%N then Some 10%N      (* n *)
  else if (e =? 114)%N then Some 13%N      (* r *)
  else if (e =? 116)%N then Some 9%N       (* t *)
  else None.

(** The code point that a pair of surrogates stands for. *)
Definition join_surrogates (hi lo : N) : N :=
  (0x10000 + ((hi - 0xD800) * 1024 + (lo - 0xDC00)))%N.

Definition is_space (c : N) : bool :=
  ((c =? 32) || (c =? 10) || (c =? 13) || (c =? 9))%N.

(** The lexer, on the code points of the text.  [lex] is between tokens;
    [lex_string acc] is inside a string whose code points so far are [acc],
    last one first.  Inside a string a control character is refused; a
    [\uxxxx] escape is read as its code point, and a high surrogate
    followed by the escape of a low one as the code point of the pair. *)
Fixpoint lex (s : list N) : option (list token) :=
  match s with
  | [] => Some []
  | c :: s' =>
      if is_space c then lex s'
      else if (c =? 123)%N then cons TLBrace <$> lex s'
      else if (c =? 125)%N then cons TRBrace <$> lex s'
      else if (c =? 91)%N then cons TLBracket <$> lex s'
      else if (c =? 93)%N then cons TRBracket <$> lex s'
      else if (c =? 58)%N then cons TColon <$> lex s'
      else if (c =? 44)%N then cons TComma <$> lex s'
      else if (c =? 34)%N then lex_string [] s'
      else None
  end
with lex_string (acc : list N) (s : list N) {struct s} : option (list token) :=
  match s with
  | [] => None
  | c :: s' =>
      if (c =? 34)%N then cons (TString (rev acc)) <$> lex s'
      else if (c =? 92)%N then
        match s' with
        | [] => None
        | e :: s'' =>
            if (e =? 117)%N then
              match s'' with
              | h1 :: h2 :: h3 :: h4 :: s3 =>
                  match hex4_value h1 h2 h3 h4 with
                  | None => None
                  | Some uni =>
                      if is_high_surrogate uni then
                        match s3 with
                        | b :: u :: k1 :: k2 :: k3 :: k4 :: s4 =>
                            if ((b =? 92) && (u =? 117))%N then
                              match hex4_value k1 k2 k3 k4 with
                              | None => None
                              | Some uni2 =>
                                  if is_low_surrogate uni2
                                  then lex_string (join_surrogates uni uni2 :: acc) s4
                                  else lex_string (uni :: acc) s3
                              end
                            else lex_string (uni :: acc) s3
                        | _ => lex_string (uni :: acc) s3
                        end
                      else lex_string (uni :: acc) s3
                  end
              | _ => None
              end
            else
              match short_escape e with
              | Some c' => lex_string (c' :: acc) s''
              | None => None
              end
        end
      else if (c <? 32)%N then None
      else lex_string (c :: acc) s'
  end.

(** The parser, a machine that reads one token at a time.  Its stack holds
    the containers that are still open: an array with its items so far, or
    an object with its fields so far and the key whose value is being read
    (items and fields last one first). *)
Inductive frame : Type :=
| FArray (items : list json)
| FObject (fields : list (list N * json)) (key : list N).

Inductive pstate : Type :=
| PValue (stack : list frame)                  (* a value must follow *)
| PFirstItem (stack : list frame)              (* after "[": a value or "]" *)
| PNextItem (stack : list frame) (items : list json)      (* "," or "]" *)
| PFirstKey (stack : list frame)               (* after "{": a key or "}" *)
| PKey (stack : list frame) (fields : list (list N * json))  (* after ",": a key *)
| PColon (stack : list frame) (fields : list (list N * json)) (key : list N)
| PNextField (stack : list frame) (fields : list (list N * json))  (* "," or "}" *)
| PDone (v : json).

(** A value is complete: it goes to the innermost open container. *)
Definition deliver (stack : list frame) (v : json) : pstate :=
  match stack with
  | [] => PDone v
  | FArray items :: stack' => PNextItem stack' (v :: items)
  | FObject fields key :: stack' => PNextField stack' ((key, v) :: fields)
  end.

Definition start_value (stack : list frame) (t : token) : option pstate :=
  match t with
  | TString s => Some (deliver stack (JString s))
  | TLBracket => Some (PFirstItem stack)
  | TLBrace => Some (PFirstKey stack)
  | _ => None
  end.

Definition parse_step (st : pstate) (t : token) : option pstate :=
  match st, t with
  | PValue stack, _ => start_value stack t
  | PFirstItem stack, TRBracket => Some (deliver stack (JArray []))
  | PFirstItem stack, _ => start_value (FArray [] :: stack) t
  | PNextItem stack items, TComma => Some (PValue (FArray items :: stack))
  | PNextItem stack items, TRBracket => Some (deliver stack (JArray (rev items)))
  | PFirstKey stack, TRBrace => Some (deliver stack (JObject []))
  | PFirstKey stack, TString k => Some (PColon stack [] k)
  | PKey stack fields, TString k => Some (PColon stack fields k)
  | PColon stack fields k, TColon => Some (PValue (FObject fields k :: stack))
  | PNextField stack fields, TComma => Some (PKey stack fields)
  | PNextField stack fields, TRBrace => Some (deliver stack (JObject (rev fields)))
  | _, _ => None
  end.

Fixpoint parse_tokens (st : pstate) (ts : list token) : option json :=
  match ts with
  | [] =>
      match st with
      | PDone v => Some v
      | _ => None
      end
  | t :: ts' =>
      match parse_step st t with
      | Some st' => parse_tokens st' ts'
      | None => None
      end
  end.

(** Reading a JSON text: exactly one value, and nothing but white space
    around it. *)
Definition json_loads (s : string) : option json :=
  ts ← lex (code_points s);
  parse_tokens (PValue []) ts.

(** The strings whose code points the encoder and the reader agree on:
    code points up to U+10FFFF, none of them a high surrogate (which the
    reader would join with a low one that follows). *)
Definition plain_point (n : N) : bool := ((n <? 0x110000) && negb (is_high_surrogate n))%N.

Definition plain (s : list N) : bool := forallb plain_point s.

Fixpoint plain_json (v : json) : bool :=
  match v with
  | JString s => plain s
  | JArray items => forallb plain_json items
  | JObject fields => forallb (fun kv => plain (fst kv) && plain_json (snd kv)) fields
  end.

(** The tokens of the text of a value. *)
Fixpoint tokens (v : json) : list token :=
  match v with
  | JString s => [TString s]
  | JArray items => TLBracket :: join [TComma] (map tokens items) ++ [TRBracket]
  | JObject fields =>
      TLBrace ::
      join [TComma] (map (fun kv => TString (fst kv) :: TColon :: tokens (snd kv)) fields) ++
      [TRBrace]
  end.

(** [text] is lexed into [toks], whatever follows. *)
Definition lexes (text : list ascii) (toks : list token) : Prop :=
  forall rest ts, lex rest = Some ts -> lex (map byte text ++ rest) = Some (toks ++ ts).

(** Reading [toks] where a value must follow completes the value [v]. *)
Definition delivers (toks : list token) (v : json) : Prop :=
  forall stack rest,
    parse_tokens (PValue stack) (toks ++ rest) = parse_tokens (deliver stack v) rest.

(** The layout of the export written out: two spaces per level, one field
    and one message per line. *)
Definition spaces (n : nat) : list ascii := repeat " "%char n.
Definition newline : list ascii := [ascii_of_nat 10].

Definition message_layout (m : Message) : list ascii :=
  chars "{" ++ newline ++
  spaces 6 ++ encode_string (code_points "role") ++ chars ": " ++
    encode_string (code_points (role m)) ++ chars "," ++ newline ++
  spaces 6 ++ encode_string (code_points "content") ++ chars ": " ++
    encode_string (code_points (content m)) ++ newline ++
  spaces 4 ++ chars "}".

Definition messages_layout (h : History) : list ascii :=
  match h with
  | [] => chars "[]"
  | _ =>
      chars "[" ++ newline ++
      spaces 4 ++ join (chars "," ++ newline ++ spaces 4) (map message_layout h) ++ newline ++
      spaces 2 ++ chars "]"
  end.

Definition export_layout (now : datetime) (h : History) : list ascii :=
  chars "{" ++ newline ++
  spaces 2 ++ encode_string (code_points "timestamp") ++ chars ": " ++
    encode_string (utf8_decode (isoformat now)) ++ chars "," ++ newline ++
  spaces 2 ++ encode_string (code_points "messages") ++ chars ": " ++ messages_layout h ++
    newline ++
  chars "}".

(** ** Example inputs *)

(** An environment in which every collaborator cooperates, except for the
    three answers given: what the microphone heard, what the recogniser
    made of it, and what the model replied. *)
Definition example_env (heard text reply : answer string) : Env :=
  mkEnv "/app" (fun e => "Traceback: " +:+ exn_str e) (Ok tt) heard "0001"
        (Ok tt) (Ok tt) text (Ok tt) reply "0002" (Ok tt) false (Ok tt) (Ok tt) (Ok tt)
        (fun _ => Ok tt).

(** A session whose history is exactly at the cap: 25 exchanges. *)
Definition full_history : History :=
  flat_map (fun _ => [user_turn "ping"; assistant_turn "pong"]) (seq 0 25).

Definition full_world : World :=
  set_chat_history full_history (initial_world {[ "stale.mp3" := RegularFile ]}).

(** A catalogue of three voices, as [initialize_voices] stores it. *)
Definition example_catalog : list RawVoice :=
  [mkRawVoice "de-DE-KatjaNeural" "de-DE";
   mkRawVoice "en-US-JennyNeural" "en-US";
   mkRawVoice "fr-FR-DeniseNeural" "fr-FR"].

(** 51 cooperative cycles with pairwise different texts. *)
Definition letter (i : nat) : string := String (ascii_of_nat (48 + i)) EmptyString.

Definition fifty_one_envs : list Env :=
  map (fun i => example_env (Ok "RIFF") (Ok ("q" +:+ letter i)) (Ok ("a" +:+ letter i)))
      (seq 0 51).

(** A moment of the clock. *)
Definition example_now : datetime := mkDatetime 2024 3 9 14 5 7 123456.

(** A session with a turn outside the 7-bit range: Latin-1, the basic
    plane and beyond. *)
Definition unicode_world : World :=
  set_chat_history [user_turn "café €5 😀"; assistant_turn "ok"] (initial_world ∅).


(** A session in which the catalogue was loaded and the user picked the
    third voice. *)
Definition picked_world : World :=
  ((initialize_voices (Ok example_catalog) >> sidebar_voice_picker (Some 2%nat))
     (initial_world ∅)).2.

(** ** The audio test at startup *)

Definition set_system_tested (b : bool) (w : World) : World :=
  mkWorld (selected_voice w) (available_voices w) (chat_history w) b
          (temp_dir w) (ui w) (llm_requests w) (tts_requests w).

(** [test_audio_system]; [remove_test] is the answer of its [os.remove]. *)
Definition test_audio_system (env : Env) (remove_test : answer unit) : M bool :=
  try_except
    (let test_text := "Test audio system." in
     let temp_file := "test_audio.mp3" in
     let* success := generate_speech env test_text temp_file in
     let* present := if success then os_path_exists temp_file else ret false in
     if success && present
     then os_remove remove_test temp_file >> ret true
     else ret false)
    (fun e => Some (st_error ("Audio system test failed: " +:+ exn_str e) >> ret false)).

(** The statement [if not st.session_state.system_tested: ...] of the
    script, which runs the test and records that it was run. *)
Definition startup_audio_test (env : Env) (remove_test : answer unit) : M unit :=
  let* tested := gets system_tested in
  if negb tested
  then
    (let* ok := test_audio_system env remove_test in
     if ok
     then st_success "Audio system is working properly"
     else st_error "Audio system is not working properly") >>
    modify (set_system_tested true)
  else ret tt.

(** ** Further vocabulary *)

(** What the sweep does to one entry of the directory. *)
Definition swept (env : Env) (f : string) (entry : option FileKind) : option FileKind :=
  match entry with
  | Some RegularFile =>
      match unlink env f with
      | Ok _ => None
      | Fails _ => Some RegularFile
      end
  | _ => entry
  end.

(** The message of the sweep for a file it could not delete. *)
Definition sweep_error (env : Env) (f : string) (e : exn) : UiEvent :=
  UiError ("Error deleting " +:+ os_path_join (Config.TEMP_DIR (cwd env)) f +:+ ": "
           +:+ exn_str e).

(** The roles the script gives to the turns it appends. *)
Definition spoken_role (m : Message) : Prop := role m = "user" \/ role m = "assistant".

(** Every one of these cycles gets a transcript and then fails at the model. *)
Fixpoint all_generation_failed (envs : list Env) (w : World) : Prop :=
  match envs with
  | [] => True
  | env :: envs' =>
      (exists t e, transcribed env w t /\ remove_audio env = Ok tt /\
                   llm_create env = Fails e) /\
      all_generation_failed envs' (transcribe_and_generate_response env w).2
  end.

(** A name without a space in it. *)
Definition space_free (s : string) : Prop := ~ In " "%char (list_ascii_of_string s).

(** The characters up to the first space. *)
Fixpoint until_space (s : list ascii) : list ascii :=
  match s with
  | [] => []
  | c :: s' => if Ascii.eqb c " " then [] else c :: until_space s'
  end.

(** The last word of a label. *)
Definition last_word (s : string) : list ascii :=
  rev (until_space (rev (list_ascii_of_string s))).

(** An environment in which the cycle gets its reply, with the given
    answers of the synthesiser, the mixer and the removal of the speech
    file. *)
Definition speech_env (save : answer unit) (partial : bool) (play unload remove : answer unit)
  : Env :=
  mkEnv "/app" (fun e => "Traceback: " +:+ exn_str e) (Ok tt) (Ok "RIFF") "0001"
        (Ok tt) (Ok tt) (Ok "hello") (Ok tt) (Ok "hi there") "0002" save partial play unload
        remove (fun _ => Ok tt).


(* ================================================================== *)
(** * Properties *)
(* ================================================================== *)

(** ** Slicing and trimming *)

Section Slicing.
Context {A : Type}.
Implicit Types (l : list A) (k : Z).

Lemma py_slice_from_neg l k :
  0 < k -> k <= Z.of_nat (length l) ->
  py_slice_from l (- k) = drop (length l - Z.to_nat k) l.
Proof.
  intros Hk Hle. unfold py_slice_from.
  destruct (Z.ltb_spec (- k) 0) as [_|Hge]; [|lia].
  f_equal. lia.
Qed.

End Slicing.

Lemma limit_history_list_drop (h : History) :
  limit_history_list h = drop (length h - 50) h.
Proof.
  unfold limit_history_list.
  destruct (Z.gtb_spec (Z.of_nat (length h)) Config.MAX_HISTORY_LENGTH) as [Hgt|Hle];
    unfold Config.MAX_HISTORY_LENGTH in *.
  - rewrite py_slice_from_neg by lia. reflexivity.
  - replace (length h - 50)%nat with 0%nat by lia. reflexivity.
Qed.

Lemma limit_history_list_length (h : History) :
  length (limit_history_list h) = Nat.min (length h) 50.
Proof. rewrite limit_history_list_drop, length_drop. lia. Qed.

Lemma limit_history_list_id (h : History) :
  (length h <= 50)%nat -> limit_history_list h = h.
Proof.
  intros Hle. rewrite limit_history_list_drop.
  replace (length h - 50)%nat with 0%nat by lia. reflexivity.
Qed.

Lemma limit_history_list_app (h l : History) :
  limit_history_list (limit_history_list h ++ l) = limit_history_list (h ++ l).
Proof.
  rewrite !limit_history_list_drop, !length_app, length_drop, !drop_app, length_drop, drop_drop.
  f_equal; f_equal; lia.
Qed.

(** ** The pieces of the cycle *)

Ltac frame_done :=
  repeat split; cbn; try reflexivity;
  try (eexists; rewrite <- ?app_assoc; reflexivity);
  try (exists []; rewrite app_nil_r; reflexivity).

(** One step of symbolic execution: case analysis on the innermost
    scrutinee of a [match] in the goal. *)
Ltac run_step :=
  match goal with
  | H : ?x = _ |- context [match ?x with _ => _ end] => rewrite H
  | |- context [match ?x with _ => _ end] =>
      match x with
      | context [match _ with _ => _ end] => fail 1
      | _ => destruct x eqn:?
      end
  end.

Lemma session_frame_refl w : session_frame w w.
Proof. frame_done. Qed.

Lemma session_frame_trans w1 w2 w3 :
  session_frame w1 w2 -> session_frame w2 w3 -> session_frame w1 w3.
Proof.
  intros (H1 & H2 & H3 & H4 & evs & H5) (K1 & K2 & K3 & K4 & evs' & K5).
  repeat split; try congruence.
  exists (evs ++ evs'). rewrite K5, H5, app_assoc. reflexivity.
Qed.

(** [speak] always comes back normally, whatever the synthesiser, the
    mixer and the file system answer, and touches neither the history nor
    the log of model requests. *)
Lemma speak_spec env text w :
  exists w', speak env text w = (Normal tt, w') /\ session_frame w w'.
Proof.
  unfold speak, call, try_except, generate_speech, communicate_save, try_except, bind, gets,
    modify, os_path_exists, os_remove, ask, ret, raise, return_, st_error, modify, bind.
  cbn.
  repeat (run_step; cbn in *; simplify_eq); try (eexists; split; [reflexivity| frame_done]).
Qed.

Lemma limit_history_spec w :
  exists w', limit_history w = (Normal tt, w') /\
    chat_history w' = limit_history_list (chat_history w) /\
    llm_requests w' = llm_requests w /\ ui w' = ui w /\ temp_dir w' = temp_dir w /\
    selected_voice w' = selected_voice w /\ available_voices w' = available_voices w.
Proof.
  unfold limit_history, limit_history_list, bind, gets, modify, ret. cbn.
  destruct (_ >? _); eexists; (split; [reflexivity|]); cbn; auto 10.
Qed.

Lemma cleanup_file_spec env f w :
  exists w', cleanup_file env f w = (Normal tt, w') /\ session_frame w w' /\
     (forall g k, temp_dir w' !! g = Some k -> temp_dir w !! g = Some k) /\
     (temp_dir w' !! f = Some RegularFile -> exists e, unlink env f = Fails e).
Proof.
  unfold cleanup_file, try_except, bind, os_path_isfile, os_remove, gets, modify, ask, ret,
    raise, st_error.
  cbn.
  destruct (temp_dir w !! f) as [[|]|] eqn:Hf; cbn; rewrite ?Hf.
  - destruct (unlink env f) as [[]|e] eqn:Hu; cbn.
    + eexists. split; [reflexivity|]. split; [frame_done|]. cbn. split.
      * intros g k Hg. apply lookup_delete_Some in Hg. tauto.
      * rewrite lookup_delete_eq. discriminate.
    + eexists. split; [reflexivity|]. split; [frame_done|]. cbn. eauto.
  - exists w. split; [reflexivity|]. split; [apply session_frame_refl|].
    split; [auto|]. congruence.
  - exists w. split; [reflexivity|]. split; [apply session_frame_refl|].
    split; [auto|]. congruence.
Qed.

Lemma for_each_cleanup env l w :
  exists w', for_each l (cleanup_file env) w = (Normal tt, w') /\ session_frame w w' /\
     (forall f k, temp_dir w' !! f = Some k -> temp_dir w !! f = Some k) /\
     (forall f, f ∈ l -> temp_dir w' !! f = Some RegularFile ->
                exists e, unlink env f = Fails e).
Proof.
  revert w. induction l as [|f l IH]; intros w.
  - exists w. cbn. split; [reflexivity|]. split; [apply session_frame_refl|].
    split; [auto|]. intros f Hf. inversion Hf.
  - cbn [for_each]. unfold bind.
    destruct (cleanup_file_spec env f w) as (w1 & -> & Hfr1 & Hmono1 & Hdel1).
    destruct (IH w1) as (w' & -> & Hfr & Hmono & Hdel).
    exists w'. split; [reflexivity|]. split; [eapply session_frame_trans; eassumption|].
    split; [auto|].
    intros g Hg Hlk. apply elem_of_cons in Hg as [->|Hg]; [|auto].
    apply Hdel1. apply Hmono. exact Hlk.
Qed.

(** The sweep always comes back normally; it only deletes; and a regular
    file that is still there afterwards is one the operating system refused
    to unlink. *)
Lemma cleanup_old_files_spec env w :
  exists w', cleanup_old_files env w = (Normal tt, w') /\ session_frame w w' /\
     (forall f k, temp_dir w' !! f = Some k -> temp_dir w !! f = Some k) /\
     (forall f, temp_dir w' !! f = Some RegularFile -> exists e, unlink env f = Fails e).
Proof.
  unfold cleanup_old_files, os_listdir. unfold bind at 1. unfold gets. cbn beta iota.
  destruct (for_each_cleanup env ((map_to_list (temp_dir w)).*1) w)
    as (w' & Heq & Hfr & Hmono & Hdel).
  exists w'. split; [exact Heq|]. split; [exact Hfr|]. split; [exact Hmono|].
  intros f Hf. apply Hdel; [|exact Hf].
  apply Hmono in Hf. apply list_elem_of_fmap. exists (f, RegularFile). split; [reflexivity|].
  apply elem_of_map_to_list. exact Hf.
Qed.

(** What the sweep does to each entry, and what it reports. *)
Lemma swept_idempotent env f o : swept env f (swept env f o) = swept env f o.
Proof. destruct o as [[|]|]; cbn; [destruct (unlink env f) eqn:E; cbn; rewrite ?E|..];
  reflexivity. Qed.

Lemma cleanup_file_effects env f w :
  exists w', cleanup_file env f w = (Normal tt, w') /\ session_frame w w' /\
    system_tested w' = system_tested w /\ tts_requests w' = tts_requests w /\
    (forall g, temp_dir w' !! g
               = if decide (g = f) then swept env f (temp_dir w !! f) else temp_dir w !! g) /\
    (forall e, temp_dir w !! f = Some RegularFile -> unlink env f = Fails e ->
               sweep_error env f e ∈ ui w').
Proof.
  unfold cleanup_file, try_except, bind, os_path_isfile, os_remove, gets, modify, ask, ret,
    raise, st_error.
  cbn.
  destruct (temp_dir w !! f) as [[|]|] eqn:Hf; cbn; rewrite ?Hf.
  - destruct (unlink env f) as [[]|e] eqn:Hu; cbn.
    + eexists. split; [reflexivity|]. split; [frame_done|]. cbn.
      split; [reflexivity|]. split; [reflexivity|]. split; [|discriminate].
      intros g. destruct (decide (g = f)) as [->|Hne].
      * apply lookup_delete_eq.
      * apply lookup_delete_ne. congruence.
    + eexists. split; [reflexivity|]. split; [frame_done|]. cbn.
      split; [reflexivity|]. split; [reflexivity|]. split.
      * intros g. destruct (decide (g = f)) as [->|Hne]; [exact Hf | reflexivity].
      * intros e' _ [= <-]. apply elem_of_app. right. apply list_elem_of_singleton.
        reflexivity.
  - exists w. split; [reflexivity|]. split; [apply session_frame_refl|].
    split; [reflexivity|]. split; [reflexivity|]. split; [|discriminate].
    intros g. destruct (decide (g = f)) as [->|Hne]; [exact Hf | reflexivity].
  - exists w. split; [reflexivity|]. split; [apply session_frame_refl|].
    split; [reflexivity|]. split; [reflexivity|]. split; [|discriminate].
    intros g. destruct (decide (g = f)) as [->|Hne]; [exact Hf | reflexivity].
Qed.

Lemma for_each_cleanup_effects env l : forall w,
  exists w', for_each l (cleanup_file env) w = (Normal tt, w') /\ session_frame w w' /\
    system_tested w' = system_tested w /\ tts_requests w' = tts_requests w /\
    (forall g, temp_dir w' !! g
               = if decide (g ∈ l) then swept env g (temp_dir w !! g) else temp_dir w !! g) /\
    (forall g e, g ∈ l -> temp_dir w !! g = Some RegularFile -> unlink env g = Fails e ->
                 sweep_error env g e ∈ ui w').
Proof.
  induction l as [|f l IH]; intros w.
  - exists w. split; [reflexivity|]. split; [apply session_frame_refl|].
    split; [reflexivity|]. split; [reflexivity|]. split.
    + intros g. destruct (decide (g ∈ [])) as [Hin|_]; [inversion Hin | reflexivity].
    + intros g e Hin. inversion Hin.
  - cbn [for_each]. unfold bind.
    destruct (cleanup_file_effects env f w) as (w1 & -> & Hfr1 & Hs1 & Ht1 & Hd1 & He1).
    destruct (IH w1) as (w' & -> & Hfr & Hs & Ht & Hd & He).
    exists w'. split; [reflexivity|]. split; [eapply session_frame_trans; eassumption|].
    split; [congruence|]. split; [congruence|]. split.
    + intros g. rewrite Hd, !Hd1.
      repeat case_decide; subst;
        first [reflexivity | apply swept_idempotent
              | exfalso; match goal with
                         | H : ¬ _ ∈ _ :: _ |- _ => apply H; apply elem_of_cons; auto
                         | H : _ ∈ _ :: _ |- _ =>
                             apply elem_of_cons in H as [?|?]; contradiction
                         end ].
    + intros g e Hin Hg Hu.
      destruct (decide (g = f)) as [->|Hne].
      * destruct Hfr as (_ & _ & _ & _ & evs & ->).
        apply elem_of_app. left. apply (He1 e Hg Hu).
      * apply elem_of_cons in Hin as [?|Hin]; [contradiction|].
        apply (He g e Hin); [|exact Hu]. rewrite Hd1, decide_False by exact Hne. exact Hg.
Qed.

Lemma cleanup_old_files_effects env w :
  exists w',
    cleanup_old_files env w = (Normal tt, w') /\ session_frame w w' /\
    system_tested w' = system_tested w /\ tts_requests w' = tts_requests w /\
    (forall f, temp_dir w' !! f = swept env f (temp_dir w !! f)) /\
    (forall f e, temp_dir w !! f = Some RegularFile -> unlink env f = Fails e ->
                 sweep_error env f e ∈ ui w').
Proof.
  unfold cleanup_old_files, os_listdir. unfold bind. unfold gets. cbn beta iota.
  destruct (for_each_cleanup_effects env ((map_to_list (temp_dir w)).*1) w)
    as (w' & -> & Hfr & Hs & Ht & Hd & He).
  assert (Hin : forall f k, temp_dir w !! f = Some k -> f ∈ (map_to_list (temp_dir w)).*1).
  { intros f k Hf. apply list_elem_of_fmap. exists (f, k). split; [reflexivity|].
    apply elem_of_map_to_list. exact Hf. }
  exists w'. split; [reflexivity|]. split; [exact Hfr|]. split; [exact Hs|].
  split; [exact Ht|]. split.
  - intros f. rewrite Hd.
    destruct (decide (f ∈ (map_to_list (temp_dir w)).*1)) as [_|Hnin]; [reflexivity|].
    destruct (temp_dir w !! f) as [k|] eqn:Hf; [|reflexivity].
    destruct Hnin. eapply Hin. exact Hf.
  - intros f e Hf Hu. apply (He f e); [eapply Hin; exact Hf | exact Hf | exact Hu].
Qed.

(** ** The cycle, case by case *)

Ltac use_specs :=
  match goal with
  | |- context [speak ?e ?t ?w] =>
      let w' := fresh "w" in
      let H := fresh "Hsp" in
      destruct (speak_spec e t w) as (w' & -> & H); destruct H as (? & ? & ? & ? & ? & ?)
  | |- context [limit_history ?w] =>
      let w' := fresh "w" in
      let H := fresh "Hlim" in
      destruct (limit_history_spec w) as (w' & -> & H); destruct H as (? & ? & ? & ? & ? & ?)
  | |- context [cleanup_old_files ?e ?w] =>
      let w' := fresh "w" in
      let H := fresh "Hcl" in
      destruct (cleanup_old_files_spec e w) as (w' & -> & H);
      destruct H as ((? & ? & ? & ? & ? & ?) & ? & ?)
  end.

Ltac unfold_cycle :=
  unfold transcribe_and_generate_response, call, try_finally, try_except,
    chat_completions_create, chat_history_append, os_path_exists, os_remove, open_wb,
    st_write, st_warning, st_error, st_rerun, bind, gets, modify, ask, ret, raise, return_;
  cbn -[speak limit_history cleanup_old_files].

Ltac run_cycle :=
  unfold_cycle;
  repeat (first [use_specs | run_step];
          cbn -[speak limit_history cleanup_old_files] in *; simplify_eq);
  try (rewrite lookup_insert_eq in *; simplify_eq).

Ltac ui_chain :=
  repeat match goal with
         | H : ui ?a = _ |- context [ui ?a] => rewrite H
         end;
  unfold error_report;
  repeat match goal with
         | H : exn_cls ?e = _ |- context [exn_cls ?e] => rewrite H
         end;
  rewrite <- ?app_assoc; reflexivity.

Ltac history_chain :=
  repeat match goal with
         | H : chat_history ?a = _ |- context [chat_history ?a] => rewrite H
         | H : llm_requests ?a = _ |- context [llm_requests ?a] => rewrite H
         end;
  rewrite <- ?app_assoc; reflexivity.

Ltac is_transcribed :=
  repeat match goal with a : unit |- _ => destruct a end;
  unfold transcribed, recorded, audio_file;
  repeat split; try eassumption;
  [ eexists; split; [eassumption | apply String.eqb_neq; assumption]
  | congruence ].

Ltac not_transcribed :=
  let t := fresh "t" in
  let d := fresh "d" in
  intros t ((? & (d & ? & ?) & ? & ? & ?) & ?);
  unfold audio_file in *;
  try match goal with
      | H : (_ =? "")%string = true |- _ => apply String.eqb_eq in H; subst
      end;
  congruence.

Ltac cycle_leaf :=
  repeat match goal with a : unit |- _ => destruct a end;
  first
    [ solve [eapply Responded;
             [is_transcribed | eassumption | eassumption | history_chain | history_chain]]
    | solve [eapply GenerationFailed;
             [is_transcribed | eassumption | eassumption | history_chain | history_chain
             | ui_chain]]
    | solve [eapply TranscriptKept;
             [is_transcribed | eassumption | history_chain | history_chain | ui_chain]]
    | solve [eapply NoTranscript;
             [not_transcribed | history_chain | history_chain | ui_chain | reflexivity]] ].

Lemma cycle_cases env w :
  cycle_outcome env w (transcribe_and_generate_response env w).1
                      (transcribe_and_generate_response env w).2.
Proof.
  run_cycle.
  all: cycle_leaf.
Qed.

(** ** The history after a cycle *)

Lemma transcribed_functional env w t t' :
  transcribed env w t -> transcribed env w t' -> t = t'.
Proof. intros [_ H] [_ H']. congruence. Qed.

(** A cycle that ends with [st.rerun()] has appended its two turns and
    trimmed. *)
Lemma responded_history env w :
  (transcribe_and_generate_response env w).1 = Raised Rerun ->
  chat_history (transcribe_and_generate_response env w).2
  = limit_history_list (chat_history w ++ turns_of env).
Proof.
  intros Hres. pose proof (cycle_cases env w) as Hc.
  destruct (transcribe_and_generate_response env w) as [r w']. cbn in *. subst r.
  inversion Hc as [| | |t a w'' [_ Ht] _ Ha Hh _]; subst.
  unfold turns_of. rewrite Ht, Ha. exact Hh.
Qed.

Lemma run_cycles_history envs : forall w,
  all_responded envs w ->
  limit_history_list (chat_history (run_cycles envs w))
  = limit_history_list (chat_history w ++ flat_map turns_of envs).
Proof.
  induction envs as [|env envs IH]; intros w Hall.
  - cbn. rewrite app_nil_r. reflexivity.
  - destruct Hall as [Hres Hall]. cbn [run_cycles flat_map].
    rewrite (IH _ Hall), (responded_history _ _ Hres), limit_history_list_app, app_assoc.
    reflexivity.
Qed.

Lemma run_cycles_length envs : forall w,
  (length (chat_history w) <= 50)%nat ->
  all_responded envs w ->
  (length (chat_history (run_cycles envs w)) <= 50)%nat.
Proof.
  induction envs as [|env envs IH]; intros w Hlen Hall.
  - exact Hlen.
  - destruct Hall as [Hres Hall]. cbn [run_cycles]. apply IH; [|exact Hall].
    rewrite (responded_history _ _ Hres), limit_history_list_length. lia.
Qed.

Lemma turns_of_length envs : length (flat_map turns_of envs) = (2 * length envs)%nat.
Proof. induction envs as [|env envs IH]; cbn in *; lia. Qed.

(** ** Claims *)

(** C1 (as amended).  The appends only insert at the end; the cap is
    enforced by [limit_history], which leaves at most
    [Config.MAX_HISTORY_LENGTH] entries, and so every cycle that reaches its
    trim (one that ends with the reply and [st.rerun()]) ends with at most
    that many entries, whatever the length before. *)
Theorem history_capped_after_trim :
  (forall m w,
      chat_history (chat_history_append m w).2 = chat_history w ++ [m]) /\
  (forall w,
      Z.of_nat (length (chat_history (limit_history w).2)) <= Config.MAX_HISTORY_LENGTH) /\
  (forall env w,
      (transcribe_and_generate_response env w).1 = Raised Rerun ->
      Z.of_nat (length (chat_history (transcribe_and_generate_response env w).2))
      <= Config.MAX_HISTORY_LENGTH).
Proof.
  split; [reflexivity|]. split.
  - intros w. destruct (limit_history_spec w) as (w' & -> & Hh & _). cbn.
    rewrite Hh, limit_history_list_length. unfold Config.MAX_HISTORY_LENGTH. lia.
  - intros env w Hres. rewrite (responded_history _ _ Hres), limit_history_list_length.
    unfold Config.MAX_HISTORY_LENGTH. lia.
Qed.

Lemma history_capped_after_trim_witness :
  (transcribe_and_generate_response
     (example_env (Ok "RIFF") (Ok "hello") (Ok "hi there")) full_world).1 = Raised Rerun /\
  Z.of_nat (length (chat_history
     (transcribe_and_generate_response
        (example_env (Ok "RIFF") (Ok "hello") (Ok "hi there")) full_world).2))
  <= Config.MAX_HISTORY_LENGTH.
Proof.
  split; [vm_compute; reflexivity|].
  apply (proj2 (proj2 history_capped_after_trim)). vm_compute; reflexivity.
Defined.

(** C1, as stated, fails: the history is at the cap, a user turn is
    appended, and the history has 51 entries; when the model call then
    fails the cycle ends there, without a trim. *)
Lemma history_exceeds_cap_after_append :
  Z.of_nat (length (chat_history full_world)) <= Config.MAX_HISTORY_LENGTH /\
  ~ Z.of_nat (length (chat_history (chat_history_append (user_turn "hello") full_world).2))
    <= Config.MAX_HISTORY_LENGTH /\
  (transcribe_and_generate_response
     (example_env (Ok "RIFF") (Ok "hello") (Fails (mkExn OtherException "503")))
     full_world).1 = Normal tt /\
  ~ Z.of_nat (length (chat_history
       (transcribe_and_generate_response
          (example_env (Ok "RIFF") (Ok "hello") (Fails (mkExn OtherException "503")))
          full_world).2))
    <= Config.MAX_HISTORY_LENGTH.
Proof.
  split; [vm_compute; discriminate|].
  split; [vm_compute; intros H; apply H; reflexivity|].
  split; [vm_compute; reflexivity|].
  vm_compute; intros H; apply H; reflexivity.
Qed.

(** C2.  From the empty history, 51 cycles that each end with the reply
    append 102 turns; the history then has exactly 50 entries, and they are
    turns 53 to 102 of what was appended, in order. *)
Theorem fifty_one_cycles_keep_latest_fifty (d : gmap string FileKind) (envs : list Env) :
  length envs = 51%nat ->
  all_responded envs (initial_world d) ->
  let turns := flat_map turns_of envs in
  let final := chat_history (run_cycles envs (initial_world d)) in
  length turns = 102%nat /\
  length final = 50%nat /\
  final = drop 52 turns /\
  (forall i, (i < 50)%nat -> final !! i = turns !! (52 + i)%nat).
Proof.
  intros Hlen Hall turns final.
  assert (Hturns : length turns = 102%nat).
  { unfold turns. rewrite turns_of_length, Hlen. reflexivity. }
  assert (Hfinal : final = drop 52 turns).
  { unfold final.
    rewrite <- (limit_history_list_id (chat_history (run_cycles envs (initial_world d)))).
    - rewrite (run_cycles_history _ _ Hall). cbn [initial_world chat_history app].
      fold turns. rewrite limit_history_list_drop, Hturns. reflexivity.
    - apply run_cycles_length; [cbn; lia|exact Hall]. }
  split; [exact Hturns|]. split; [|split; [exact Hfinal|]].
  - rewrite Hfinal, length_drop, Hturns. reflexivity.
  - intros i _. rewrite Hfinal. apply lookup_drop.
Qed.

Lemma fifty_one_cycles_keep_latest_fifty_witness :
  length (chat_history (run_cycles fifty_one_envs (initial_world ∅))) = 50%nat /\
  chat_history (run_cycles fifty_one_envs (initial_world ∅)) !! 0%nat
  = Some (user_turn ("q" +:+ letter 26)).
Proof.
  assert (Hlen : length fifty_one_envs = 51%nat) by reflexivity.
  assert (Hall : all_responded fifty_one_envs (initial_world ∅)).
  { vm_compute. repeat split. }
  destruct (fifty_one_cycles_keep_latest_fifty ∅ fifty_one_envs Hlen Hall)
    as (_ & H50 & _ & Hnth).
  split; [exact H50|].
  rewrite (Hnth 0%nat) by lia. reflexivity.
Defined.

(** C3.  When the audio was transcribed and the model call then fails, the
    cycle returns normally, the user turn it appended is still in the
    history (nothing else was added or removed), the request had been sent,
    and the failure is reported on the page. *)
Theorem generation_failure_keeps_user_turn (env : Env) (w : World) (t : string) (e : exn) :
  transcribed env w t ->
  remove_audio env = Ok tt ->
  llm_create env = Fails e ->
  (transcribe_and_generate_response env w).1 = Normal tt /\
  chat_history (transcribe_and_generate_response env w).2
  = chat_history w ++ [user_turn t] /\
  llm_requests (transcribe_and_generate_response env w).2
  = llm_requests w ++ [request_for (chat_history w ++ [user_turn t])] /\
  exists evs,
    ui (transcribe_and_generate_response env w).2
    = ui w ++ [UiWrite "Please speak something..."] ++ error_report env e ++ evs.
Proof.
  intros Ht Hrm Hllm. pose proof (cycle_cases env w) as Hc.
  destruct (transcribe_and_generate_response env w) as [r w']. cbn in *.
  inversion Hc as [w1 evs Hno| t1 e1 w1 evs Ht1 Hrm1
                  | t1 e1 w1 evs Ht1 _ Hllm1 Hh Hreq Hui
                  | t1 a w1 Ht1 _ Hllm1]; subst.
  - destruct (Hno t Ht).
  - congruence.
  - assert (t1 = t) by (eapply transcribed_functional; eassumption).
    assert (e1 = e) by congruence. subst.
    repeat split; try assumption. exists evs. exact Hui.
  - congruence.
Qed.

Lemma generation_failure_keeps_user_turn_witness :
  chat_history
    (transcribe_and_generate_response
       (example_env (Ok "RIFF") (Ok "hello") (Fails (mkExn OtherException "503")))
       (initial_world ∅)).2
  = [user_turn "hello"].
Proof.
  refine (proj1 (proj2 (generation_failure_keeps_user_turn
            (example_env (Ok "RIFF") (Ok "hello") (Fails (mkExn OtherException "503")))
            (initial_world ∅) "hello" (mkExn OtherException "503") _ _ _))).
  - repeat split; try reflexivity.
    + exists "RIFF". split; [reflexivity | discriminate].
    + vm_compute. discriminate.
  - reflexivity.
  - reflexivity.
Defined.








(** C7.  Once the audio is transcribed (and its file removed) the cycle
    sends the model exactly one request: its messages are the fixed system
    message followed by the whole history as it is then, which ends with the
    user turn just appended; it names the configured model and carries the
    configured token limit and temperature.  A cycle sends no other request:
    its log of requests is the old one, or the old one and this request. *)
Theorem prompt_is_system_then_history (env : Env) (w : World) :
  (forall t,
     transcribed env w t -> remove_audio env = Ok tt ->
     llm_requests (transcribe_and_generate_response env w).2
     = llm_requests w ++
       [ {| messages :=
              {| role := "system";
                 content := "You are a concise assistant. Always respond in 40 words or less." |}
              :: (chat_history w ++ [ {| role := "user"; content := t |} ]);
            model := Config.LLM_MODEL;
            max_tokens := Config.MAX_TOKENS;
            temperature := Config.TEMPERATURE |} ]) /\
  (llm_requests (transcribe_and_generate_response env w).2 = llm_requests w \/
   exists t,
     transcribed env w t /\ remove_audio env = Ok tt /\
     llm_requests (transcribe_and_generate_response env w).2
     = llm_requests w ++
       [ {| messages := system_message :: (chat_history w ++ [user_turn t]);
            model := Config.LLM_MODEL;
            max_tokens := Config.MAX_TOKENS;
            temperature := Config.TEMPERATURE |} ]).
Proof.
  pose proof (cycle_cases env w) as Hc.
  destruct (transcribe_and_generate_response env w) as [r w']. cbn [fst snd] in *.
  split.
  - intros t Ht Hrm.
    inversion Hc as [w1 evs Hno | t1 e w1 evs _ Hrm1
                    | t1 e w1 evs Ht1 _ _ _ Hreq | t1 a w1 Ht1 _ _ _ Hreq]; subst.
    + destruct (Hno t Ht).
    + congruence.
    + rewrite (transcribed_functional _ _ _ _ Ht Ht1). exact Hreq.
    + rewrite (transcribed_functional _ _ _ _ Ht Ht1). exact Hreq.
  - inversion Hc as [w1 evs _ _ Hreq | t e w1 evs _ _ _ Hreq
                    | t e w1 evs Ht Hrm _ _ Hreq | t a w1 Ht Hrm _ _ Hreq]; subst.
    + left. exact Hreq.
    + left. exact Hreq.
    + right. exists t. split; [exact Ht|]. split; [exact Hrm | exact Hreq].
    + right. exists t. split; [exact Ht|]. split; [exact Hrm | exact Hreq].
Qed.

Lemma prompt_is_system_then_history_witness :
  llm_requests
    (transcribe_and_generate_response
       (example_env (Ok "RIFF") (Ok "hello") (Ok "hi there"))
       (set_chat_history [user_turn "ping"; assistant_turn "pong"] (initial_world ∅))).2
  = [ {| messages := [system_message; user_turn "ping"; assistant_turn "pong";
                      user_turn "hello"];
         model := "llama3-8b-8192";
         max_tokens := 20;
         temperature := Config.TEMPERATURE |} ].
Proof.
  refine (proj1 (prompt_is_system_then_history
                   (example_env (Ok "RIFF") (Ok "hello") (Ok "hi there"))
                   (set_chat_history [user_turn "ping"; assistant_turn "pong"]
                      (initial_world ∅))) "hello" _ _).
  - repeat split; try reflexivity.
    + exists "RIFF". split; [reflexivity | discriminate].
    + vm_compute. discriminate.
  - reflexivity.
Defined.

(** C8.  When the history is longer than the cap, [limit_history] removes a
    prefix and nothing else: what is left is the suffix of the old history
    that has exactly [Config.MAX_HISTORY_LENGTH] entries. *)
Theorem limit_history_keeps_newest (w : World) :
  Z.of_nat (length (chat_history w)) > Config.MAX_HISTORY_LENGTH ->
  exists oldest,
    chat_history w = oldest ++ chat_history (limit_history w).2 /\
    Z.of_nat (length (chat_history (limit_history w).2)) = Config.MAX_HISTORY_LENGTH /\
    chat_history (limit_history w).2
    = drop (length (chat_history w) - Z.to_nat Config.MAX_HISTORY_LENGTH) (chat_history w).
Proof.
  intros Hgt. destruct (limit_history_spec w) as (w' & -> & Hh & _). cbn [snd].
  rewrite Hh, limit_history_list_drop. unfold Config.MAX_HISTORY_LENGTH in *.
  exists (take (length (chat_history w) - 50) (chat_history w)).
  split; [symmetry; apply take_drop|]. split; [|reflexivity].
  rewrite length_drop. lia.
Qed.

Lemma limit_history_keeps_newest_witness :
  exists oldest,
    full_history ++ [user_turn "hello"; assistant_turn "hi there"]
    = oldest ++
      chat_history
        (limit_history
           (set_chat_history
              (full_history ++ [user_turn "hello"; assistant_turn "hi there"])
              (initial_world ∅))).2 /\
    length oldest = 2%nat.
Proof.
  destruct (limit_history_keeps_newest
              (set_chat_history
                 (full_history ++ [user_turn "hello"; assistant_turn "hi there"])
                 (initial_world ∅)))
    as (oldest & Happ & Hlen & _).
  - vm_compute. reflexivity.
  - exists oldest. split; [exact Happ|].
    apply (f_equal (@length Message)) in Happ. rewrite length_app in Happ.
    cbn [set_chat_history chat_history] in Happ.
    change (length (full_history ++ [user_turn "hello"; assistant_turn "hi there"]))
      with 52%nat in Happ.
    unfold Config.MAX_HISTORY_LENGTH in Hlen. lia.
Defined.

(** C10.  [limit_history] changes nothing when the history is within the
    cap, and running it a second time changes nothing either. *)
Theorem limit_history_idempotent (w : World) :
  (Z.of_nat (length (chat_history w)) <= Config.MAX_HISTORY_LENGTH ->
   limit_history w = (Normal tt, w)) /\
  limit_history (limit_history w).2 = (Normal tt, (limit_history w).2) /\
  chat_history (limit_history (limit_history w).2).2 = chat_history (limit_history w).2.
Proof.
  assert (Hid : forall w0, Z.of_nat (length (chat_history w0)) <= Config.MAX_HISTORY_LENGTH ->
                           limit_history w0 = (Normal tt, w0)).
  { intros w0 Hle. unfold limit_history, bind, gets, ret.
    destruct (Z.gtb_spec (Z.of_nat (length (chat_history w0))) Config.MAX_HISTORY_LENGTH);
      [lia | reflexivity]. }
  assert (Hcap : Z.of_nat (length (chat_history (limit_history w).2))
                 <= Config.MAX_HISTORY_LENGTH).
  { destruct (limit_history_spec w) as (w' & -> & Hh & _). cbn [snd].
    rewrite Hh, limit_history_list_length. unfold Config.MAX_HISTORY_LENGTH. lia. }
  split; [apply Hid|]. split.
  - apply Hid, Hcap.
  - rewrite (Hid _ Hcap). reflexivity.
Qed.

Lemma limit_history_idempotent_witness :
  limit_history full_world = (Normal tt, full_world).
Proof.
  apply (proj1 (limit_history_idempotent full_world)). vm_compute. discriminate.
Defined.

(** ** Voice selection *)

Lemma list_index_Some x l i :
  list_index x l = Some i -> l !! i = Some x.
Proof.
  revert i. induction l as [|y l IH]; intros i; cbn; [discriminate|].
  destruct (String.eqb_spec y x) as [->|Hne].
  - intros [= <-]. reflexivity.
  - destruct (list_index x l) as [j|]; cbn; [|discriminate].
    intros [= <-]. cbn. apply IH. reflexivity.
Qed.

Lemma list_index_None x l :
  list_index x l = None -> x ∉ l.
Proof.
  induction l as [|y l IH]; cbn; [intros _; apply not_elem_of_nil|].
  destruct (String.eqb_spec y x) as [->|Hne]; [discriminate|].
  destruct (list_index x l) as [j|]; cbn; [discriminate|].
  intros _. apply not_elem_of_cons. split; [congruence | auto].
Qed.

Lemma list_index_elem x l :
  x ∈ l -> exists i, list_index x l = Some i.
Proof.
  intros Hin. destruct (list_index x l) as [i|] eqn:E; [eauto|].
  destruct (list_index_None _ _ E Hin).
Qed.

(** The position found carries the label asked for, in the list of labels,
    so the voice at that position shows this label. *)
Lemma list_index_display (voices : list Voice) d j :
  list_index d (map display voices) = Some j ->
  exists v, voices !! j = Some v /\ display v = d /\ map name voices !! j = Some (name v).
Proof.
  intros Hj. apply list_index_Some in Hj. rewrite list_lookup_fmap in Hj.
  destruct (voices !! j) as [v|] eqn:Hv; [|discriminate].
  injection Hj as Hd. exists v. split; [reflexivity|]. split; [exact Hd|].
  rewrite list_lookup_fmap, Hv. reflexivity.
Qed.

Lemma default_idx_valid (voices : list Voice) :
  voices <> [] -> exists v, voices !! default_idx (map name voices) = Some v.
Proof.
  intros Hne. unfold default_idx.
  destruct (list_index Config.DEFAULT_VOICE (map name voices)) as [i|] eqn:E.
  - apply list_index_Some in E. rewrite list_lookup_fmap in E.
    destruct (voices !! i) as [v|]; [eauto | discriminate].
  - destruct voices as [|v voices]; [congruence | eauto].
Qed.

(** What the picker does with a catalogue that is not empty: it stores the
    name of the first voice that shows the label the select box returned,
    and that label is the one of the preselected voice on first render. *)
Lemma sidebar_voice_picker_selects (w : World) (pick : option nat) :
  available_voices w <> [] ->
  exists d v j,
    (pick = None ->
     map display (available_voices w) !! default_idx (map name (available_voices w)) = Some d) /\
    list_index d (map display (available_voices w)) = Some j /\
    available_voices w !! j = Some v /\ display v = d /\
    sidebar_voice_picker pick w = (Normal tt, set_selected_voice (name v) w).
Proof.
  intros Hne.
  destruct (default_idx_valid _ Hne) as [v0 Hv0].
  assert (Hsel : exists d,
             (pick = None ->
              map display (available_voices w) !! default_idx (map name (available_voices w))
              = Some d) /\
             d ∈ map display (available_voices w) /\
             st_selectbox (map display (available_voices w))
               (default_idx (map name (available_voices w))) pick w = (Normal d, w)).
  { unfold st_selectbox.
    destruct (from_option (fun i => map display (available_voices w) !! i) None pick)
      as [d|] eqn:Hp.
    - exists d. split; [intros ->; discriminate Hp|]. split; [|reflexivity].
      destruct pick as [i|]; [|discriminate Hp]. cbn in Hp.
      eapply list_elem_of_lookup_2. exact Hp.
    - rewrite list_lookup_fmap, Hv0. cbn. exists (display v0).
      split; [reflexivity|]. split; [|reflexivity].
      apply list_elem_of_fmap. exists v0. split; [reflexivity|].
      eapply list_elem_of_lookup_2. exact Hv0. }
  destruct Hsel as (d & Hfirst & Hin & Hbox).
  destruct (list_index_elem _ _ Hin) as [j Hj].
  destruct (list_index_display _ _ _ Hj) as (v & Hv & Hd & Hn).
  exists d, v, j. split; [exact Hfirst|]. split; [exact Hj|]. split; [exact Hv|].
  split; [exact Hd|].
  unfold sidebar_voice_picker, bind, gets.
  destruct (available_voices w) as [|v1 vs] eqn:Hav; [congruence|].
  rewrite Hbox, Hj, Hn. reflexivity.
Qed.

(** C9 (as amended).  The position the picker preselects is that of the
    default voice when the catalogue has it and the first position
    otherwise.  The picker never raises.  On first render it stores the
    first voice when the default is absent, and the default voice when it is
    present (labels that tell the voices apart assumed).  With an empty
    catalogue it only reports that no voices are available and leaves the
    selected voice as it is, which at the start of a session is the
    hardcoded default. *)
Theorem voice_selection_fallback (w : World) (pick : option nat) :
  let voices := available_voices w in
  let names := map name voices in
  (Config.DEFAULT_VOICE ∈ names -> names !! default_idx names = Some Config.DEFAULT_VOICE) /\
  (Config.DEFAULT_VOICE ∉ names -> default_idx names = 0%nat) /\
  (sidebar_voice_picker pick w).1 = Normal tt /\
  (pick = None -> voices <> [] -> Config.DEFAULT_VOICE ∉ names ->
   Some (selected_voice (sidebar_voice_picker pick w).2) = head names) /\
  (pick = None -> Config.DEFAULT_VOICE ∈ names ->
   (forall v v', v ∈ voices -> v' ∈ voices -> display v = display v' -> name v = name v') ->
   selected_voice (sidebar_voice_picker pick w).2 = Config.DEFAULT_VOICE) /\
  (voices = [] ->
   ui (sidebar_voice_picker pick w).2 = ui w ++ [UiWarning "No voices available"] /\
   selected_voice (sidebar_voice_picker pick w).2 = selected_voice w) /\
  (forall d catalog,
     catalog = Ok [] \/ (exists e, catalog = Fails e) ->
     ((initialize_voices catalog >> sidebar_voice_picker pick) (initial_world d)).1
     = Normal tt /\
     selected_voice ((initialize_voices catalog >> sidebar_voice_picker pick)
                       (initial_world d)).2
     = Config.DEFAULT_VOICE /\
     last (ui ((initialize_voices catalog >> sidebar_voice_picker pick)
                 (initial_world d)).2)
     = Some (UiWarning "No voices available")).
Proof.
  intros voices names.
  assert (Hpre : Config.DEFAULT_VOICE ∈ names ->
                 names !! default_idx names = Some Config.DEFAULT_VOICE).
  { intros Hin. destruct (list_index_elem _ _ Hin) as [i Hi].
    unfold default_idx. rewrite Hi. apply list_index_Some. exact Hi. }
  assert (Habs : Config.DEFAULT_VOICE ∉ names -> default_idx names = 0%nat).
  { intros Hnin. unfold default_idx.
    destruct (list_index Config.DEFAULT_VOICE names) as [i|] eqn:Hi; [|reflexivity].
    destruct Hnin. eapply list_elem_of_lookup_2. apply list_index_Some. exact Hi. }
  split; [exact Hpre|]. split; [exact Habs|]. split; [|split; [|split; [|split]]].
  - destruct (available_voices w) as [|v1 vs] eqn:Hav.
    + unfold sidebar_voice_picker, bind, gets. rewrite Hav. reflexivity.
    + destruct (sidebar_voice_picker_selects w pick) as (d & v & j & _ & _ & _ & _ & ->);
        [congruence | reflexivity].
  - intros -> Hne Hnin.
    destruct (sidebar_voice_picker_selects w None Hne) as (d & v & j & Hd & Hj & Hv & _ & ->).
    specialize (Hd eq_refl). fold voices names in Hd. rewrite (Habs Hnin) in Hd.
    fold voices in Hj, Hv. unfold names.
    destruct voices as [|v1 vs]; [congruence|]. cbn in Hd. injection Hd as <-.
    cbn in Hj. rewrite String.eqb_refl in Hj. injection Hj as <-.
    cbn in Hv. injection Hv as <-. reflexivity.
  - intros -> Hin Hinj.
    assert (Hne : available_voices w <> []).
    { fold voices. intros E. unfold names in Hin. rewrite E in Hin. inversion Hin. }
    destruct (sidebar_voice_picker_selects w None Hne)
      as (d & v & j & Hd & Hj & Hv & Hdv & ->).
    specialize (Hd eq_refl). fold voices names in Hd. fold voices in Hv.
    specialize (Hpre Hin). unfold names in Hpre, Hd. rewrite list_lookup_fmap in Hpre, Hd.
    destruct (voices !! default_idx (map name voices)) as [v0|] eqn:Hv0; [|discriminate].
    cbn in Hpre, Hd. injection Hpre as Hn0. injection Hd as Hd0. cbn. rewrite <- Hn0.
    apply Hinj; [eapply list_elem_of_lookup_2; exact Hv
                | eapply list_elem_of_lookup_2; exact Hv0 | congruence].
  - intros Hnil. unfold sidebar_voice_picker, bind, gets. fold voices. rewrite Hnil.
    split; reflexivity.
  - intros d catalog [-> | [e ->]]; repeat split; cbn; apply last_snoc.
Qed.

Lemma voice_selection_fallback_witness :
  selected_voice
    (sidebar_voice_picker None
       ((initialize_voices (Ok example_catalog) (initial_world ∅)).2)).2
  = Config.DEFAULT_VOICE /\
  selected_voice
    (sidebar_voice_picker None
       ((initialize_voices (Ok (drop 2 example_catalog)) (initial_world ∅)).2)).2
  = "fr-FR-DeniseNeural" /\
  selected_voice
    (sidebar_voice_picker None ((initialize_voices (Ok []) (initial_world ∅)).2)).2
  = Config.DEFAULT_VOICE.
Proof.
  split; [|split].
  - refine (proj1 (proj2 (proj2 (proj2 (proj2
      (voice_selection_fallback
         ((initialize_voices (Ok example_catalog) (initial_world ∅)).2) None))))) _ _ _).
    + reflexivity.
    + vm_compute. apply list_elem_of_In. cbn. auto.
    + intros v v' Hv Hv' Hd.
      apply list_elem_of_In in Hv, Hv'. cbn in Hv, Hv'.
      destruct Hv as [<-|[<-|[<-|[]]]]; destruct Hv' as [<-|[<-|[<-|[]]]];
        first [reflexivity | discriminate Hd].
  - assert (H := proj1 (proj2 (proj2 (proj2
      (voice_selection_fallback
         ((initialize_voices (Ok (drop 2 example_catalog)) (initial_world ∅)).2) None))))).
    cbv zeta in H. specialize (H eq_refl).
    assert (Hs : Some (selected_voice
       (sidebar_voice_picker None
          ((initialize_voices (Ok (drop 2 example_catalog)) (initial_world ∅)).2)).2)
       = Some "fr-FR-DeniseNeural").
    { rewrite H; [reflexivity | discriminate |].
      intros Hin. apply list_elem_of_In in Hin. cbn in Hin.
      destruct Hin as [Hin|[]]. discriminate Hin. }
    exact (f_equal (from_option id EmptyString) Hs).
  - assert (H := proj1 (proj2 (proj2 (proj2 (proj2 (proj2
      (voice_selection_fallback
         ((initialize_voices (Ok []) (initial_world ∅)).2) None))))))).
    cbv zeta in H. destruct (H eq_refl) as [_ Hsel]. rewrite Hsel. reflexivity.
Defined.

(** C9, as stated, fails: the user has picked another voice, the catalogue
    is loaded again on the next run of the script and comes back empty, and
    the picker, which reports that no voices are available, leaves the
    picked voice selected; it does not return to the hardcoded default. *)
Lemma empty_catalogue_keeps_picked_voice :
  selected_voice picked_world = "fr-FR-DeniseNeural" /\
  ((initialize_voices (Ok []) >> sidebar_voice_picker None) picked_world).1 = Normal tt /\
  available_voices ((initialize_voices (Ok []) >> sidebar_voice_picker None) picked_world).2
  = [] /\
  last (ui ((initialize_voices (Ok []) >> sidebar_voice_picker None) picked_world).2)
  = Some (UiWarning "No voices available") /\
  selected_voice ((initialize_voices (Ok []) >> sidebar_voice_picker None) picked_world).2
  = "fr-FR-DeniseNeural" /\
  selected_voice ((initialize_voices (Ok []) >> sidebar_voice_picker None) picked_world).2
  <> Config.DEFAULT_VOICE.
Proof. vm_compute. repeat split. discriminate. Qed.

(** ** The clock readers *)

Lemma digit_value_digit (d : N) : (d < 10)%N -> digit_value (digit d) = Some d.
Proof.
  intros Hd.
  assert (H : d = 0%N \/ d = 1%N \/ d = 2%N \/ d = 3%N \/ d = 4%N \/ d = 5%N \/ d = 6%N
              \/ d = 7%N \/ d = 8%N \/ d = 9%N) by lia.
  repeat (destruct H as [->|H]; [reflexivity|]). subst. reflexivity.
Qed.

Lemma read_digits_zero_pad (w k : nat) : forall (acc m : N) (rest : list ascii),
  (m < 10 ^ N.of_nat w)%N ->
  read_digits (w + k) acc (zero_pad w m ++ rest)
  = read_digits k (acc * 10 ^ N.of_nat w + m)%N rest.
Proof.
  revert k. induction w as [|w IH]; intros k acc m rest Hm.
  - cbn. f_equal. cbn in Hm. lia.
  - cbn [zero_pad]. rewrite <- app_assoc. cbn [app].
    replace (S w + k)%nat with (w + S k)%nat by lia.
    rewrite Nat2N.inj_succ, N.pow_succ_r' in Hm.
    rewrite IH by (apply N.Div0.div_lt_upper_bound; lia).
    cbn [read_digits]. rewrite digit_value_digit by (apply N.mod_lt; lia).
    f_equal. rewrite Nat2N.inj_succ, N.pow_succ_r'.
    pose proof (N.div_mod m 10 ltac:(lia)). lia.
Qed.

Lemma read_zero_pad (w : nat) (m : N) (rest : list ascii) :
  (m < 10 ^ N.of_nat w)%N ->
  read_digits w 0 (zero_pad w m ++ rest) = Some (m, rest).
Proof.
  intros Hm. rewrite <- (Nat.add_0_r w) at 1. rewrite read_digits_zero_pad by exact Hm.
  cbn. reflexivity.
Qed.

Lemma valid_datetime_bounds dt :
  valid_datetime dt = true ->
  (year dt < 10 ^ N.of_nat 4 /\ month dt < 10 ^ N.of_nat 2 /\ day dt < 10 ^ N.of_nat 2 /\
   hour dt < 10 ^ N.of_nat 2 /\ minute dt < 10 ^ N.of_nat 2 /\
   second dt < 10 ^ N.of_nat 2 /\ microsecond dt < 10 ^ N.of_nat 6)%N.
Proof.
  unfold valid_datetime. rewrite !andb_true_iff.
  intros (((((((((H1 & H2) & H3) & H4) & H5) & H6) & H7) & H8) & H9) & H10).
  apply N.leb_le in H2, H4, H6. apply N.ltb_lt in H7, H8, H9, H10.
  assert (days_in_month (year dt) (month dt) <= 31)%N.
  { unfold days_in_month.
    destruct (month dt) as [|[[[[]|[]|]|[[]|[]|]|]|[[[]|[]|]|[[]|[]|]|]|]];
      try destruct (is_leap _); lia. }
  change (10 ^ N.of_nat 4)%N with 10000%N. change (10 ^ N.of_nat 2)%N with 100%N.
  change (10 ^ N.of_nat 6)%N with 1000000%N. lia.
Qed.

(** The timestamp of the export reads back as the moment it was taken. *)
Lemma fromisoformat_isoformat dt :
  valid_datetime dt = true -> fromisoformat (isoformat dt) = Some dt.
Proof.
  intros Hv. destruct (valid_datetime_bounds dt Hv) as (Hy & Hmo & Hd & Hh & Hmi & Hs & Hus).
  unfold fromisoformat, isoformat.
  rewrite (read_zero_pad 4) by exact Hy. cbn [mbind option_bind expect chars
    list_ascii_of_string app Ascii.eqb Bool.eqb].
  rewrite (read_zero_pad 2) by exact Hmo. cbn [mbind option_bind expect chars
    list_ascii_of_string app Ascii.eqb Bool.eqb].
  rewrite (read_zero_pad 2) by exact Hd. cbn [mbind option_bind expect chars
    list_ascii_of_string app Ascii.eqb Bool.eqb].
  rewrite (read_zero_pad 2) by exact Hh. cbn [mbind option_bind expect chars
    list_ascii_of_string app Ascii.eqb Bool.eqb].
  rewrite (read_zero_pad 2) by exact Hmi. cbn [mbind option_bind expect chars
    list_ascii_of_string app Ascii.eqb Bool.eqb].
  rewrite (read_zero_pad 2) by exact Hs. cbn [mbind option_bind].
  destruct (N.eqb_spec (microsecond dt) 0) as [Hz|Hnz].
  - cbn. destruct dt as [y mo d h mi se us]. cbn in *. subst us. rewrite Hv. reflexivity.
  - cbn [chars list_ascii_of_string app expect Ascii.eqb Bool.eqb mbind option_bind].
    rewrite <- (app_nil_r (zero_pad 6 _)), (read_zero_pad 6) by exact Hus.
    cbn. destruct dt as [y mo d h mi se us]. cbn in *. rewrite Hv. reflexivity.
Qed.

Lemma read_stamp_strftime dt :
  valid_datetime dt = true ->
  read_stamp (strftime_stamp dt)
  = Some (year dt, month dt, day dt, hour dt, minute dt, second dt).
Proof.
  intros Hv. destruct (valid_datetime_bounds dt Hv) as (Hy & Hmo & Hd & Hh & Hmi & Hs & Hus).
  unfold read_stamp, strftime_stamp.
  rewrite (read_zero_pad 4) by exact Hy. cbn [mbind option_bind].
  rewrite (read_zero_pad 2) by exact Hmo. cbn [mbind option_bind].
  rewrite (read_zero_pad 2) by exact Hd. cbn [mbind option_bind expect chars
    list_ascii_of_string app Ascii.eqb Bool.eqb].
  rewrite (read_zero_pad 2) by exact Hh. cbn [mbind option_bind].
  rewrite (read_zero_pad 2) by exact Hmi. cbn [mbind option_bind].
  rewrite <- (app_nil_r (zero_pad 2 (second dt))), (read_zero_pad 2) by exact Hs.
  reflexivity.
Qed.

Lemma zero_pad_length w n : length (zero_pad w n) = w.
Proof. revert n. induction w as [|w IH]; intros n; cbn; [reflexivity|].
  rewrite length_app, IH. cbn. lia. Qed.

(** ** Code points and their bytes *)

Ltac lia_div := zify; Z.to_euclidean_division_equations; lia.

Ltac bool_hyps :=
  repeat match goal with
         | H : _ && _ = true |- _ => apply andb_true_iff in H; destruct H
         | H : negb _ = true |- _ => apply negb_true_iff in H
         | H : _ && _ = false |- _ => apply andb_false_iff in H; destruct H
         | H : (_ <=? _)%N = true |- _ => apply N.leb_le in H
         | H : (_ <? _)%N = true |- _ => apply N.ltb_lt in H
         | H : (_ <? _)%N = false |- _ => apply N.ltb_ge in H
         | H : (_ <=? _)%N = false |- _ => apply N.leb_gt in H
         | H : (_ =? _)%N = true |- _ => apply N.eqb_eq in H
         | H : (_ =? _)%N = false |- _ => apply N.eqb_neq in H
         end.

Ltac decide_tests :=
  repeat match goal with
         | |- context [(?a <? ?b)%N] => destruct (N.ltb_spec a b); try lia
         | |- context [(?a <=? ?b)%N] => destruct (N.leb_spec a b); try lia
         | |- context [(?a =? ?b)%N] => destruct (N.eqb_spec a b); try lia
         end.

Lemma byte_bound c : (byte c < 256)%N.
Proof. apply N_ascii_bounded. Qed.

Lemma ascii_of_byte c : ascii_of_N (byte c) = c.
Proof. apply ascii_N_embedding. Qed.

Lemma byte_of_ascii n : (n < 256)%N -> byte (ascii_of_N n) = n.
Proof. apply N_ascii_embedding. Qed.

Lemma utf8_encode_cons n l : utf8_encode (n :: l) = utf8_of_code_point n ++ utf8_encode l.
Proof. reflexivity. Qed.

Lemma utf8_of_one c : (byte c < 0x80)%N -> utf8_of_code_point (byte c) = [c].
Proof.
  intros H. unfold utf8_of_code_point. decide_tests. rewrite ascii_of_byte. reflexivity.
Qed.

Lemma utf8_of_escaped c : (0x80 <= byte c)%N -> utf8_of_code_point (0xDC00 + byte c) = [c].
Proof.
  intros H. pose proof (byte_bound c). unfold utf8_of_code_point. decide_tests. cbn [andb].
  replace (0xDC00 + byte c - 0xDC00)%N with (byte c) by lia.
  rewrite ascii_of_byte. reflexivity.
Qed.

Lemma utf8_of_two c0 c1 :
  well_formed2 (byte c0) (byte c1) = true ->
  utf8_of_code_point (two_bytes (byte c0) (byte c1)) = [c0; c1].
Proof.
  unfold well_formed2, continuation. intros H. bool_hyps.
  assert (Hd : (0xC0 + two_bytes (byte c0) (byte c1) / 64 = byte c0)%N)
    by (unfold two_bytes in *; lia_div).
  assert (Hm : (0x80 + two_bytes (byte c0) (byte c1) mod 64 = byte c1)%N)
    by (unfold two_bytes in *; lia_div).
  assert (Hlt : (two_bytes (byte c0) (byte c1) < 0x800)%N) by (unfold two_bytes; lia).
  unfold utf8_of_code_point.
  destruct (N.ltb_spec (two_bytes (byte c0) (byte c1)) 0x80); [lia|].
  destruct (N.ltb_spec (two_bytes (byte c0) (byte c1)) 0x800); [|lia].
  rewrite Hd, Hm, !ascii_of_byte. reflexivity.
Qed.

Lemma three_bytes_parts b0 b1 b2 :
  well_formed3 b0 b1 b2 = true ->
  (0x800 <= three_bytes b0 b1 b2 < 0x10000 /\
   (three_bytes b0 b1 b2 < 0xD800 \/ 0xE000 <= three_bytes b0 b1 b2) /\
   0xE0 + three_bytes b0 b1 b2 / 4096 = b0 /\
   0x80 + (three_bytes b0 b1 b2 / 64) mod 64 = b1 /\
   0x80 + three_bytes b0 b1 b2 mod 64 = b2)%N.
Proof.
  unfold well_formed3, continuation, is_surrogate, three_bytes. intros H.
  bool_hyps; (split; [lia|]; split; [lia|]; repeat split; lia_div).
Qed.

Lemma utf8_of_three c0 c1 c2 :
  well_formed3 (byte c0) (byte c1) (byte c2) = true ->
  utf8_of_code_point (three_bytes (byte c0) (byte c1) (byte c2)) = [c0; c1; c2].
Proof.
  intros H. destruct (three_bytes_parts _ _ _ H) as (Hr & Hns & Hb0 & Hb1 & Hb2).
  set (v := three_bytes (byte c0) (byte c1) (byte c2)) in *.
  assert (Hesc : ((0xDC80 <=? v) && (v <? 0xDD00))%N = false).
  { apply andb_false_iff.
    destruct (N.leb_spec 0xDC80 v); [right|left; reflexivity].
    apply N.ltb_ge. lia. }
  unfold utf8_of_code_point. rewrite Hesc.
  destruct (N.ltb_spec v 0x80); [lia|].
  destruct (N.ltb_spec v 0x800); [lia|].
  destruct (N.ltb_spec v 0x10000); [|lia].
  rewrite Hb0, Hb1, Hb2, !ascii_of_byte. reflexivity.
Qed.

Lemma utf8_of_four c0 c1 c2 c3 :
  well_formed4 (byte c0) (byte c1) (byte c2) (byte c3) = true ->
  utf8_of_code_point (four_bytes (byte c0) (byte c1) (byte c2) (byte c3)) = [c0; c1; c2; c3].
Proof.
  unfold well_formed4, continuation. intros H. bool_hyps.
  set (v := four_bytes (byte c0) (byte c1) (byte c2) (byte c3)) in *.
  set (u := (((byte c0 - 0xF0) * 64 + (byte c1 - 0x80)) * 64 + (byte c2 - 0x80))%N).
  set (t := ((byte c0 - 0xF0) * 64 + (byte c1 - 0x80))%N).
  assert (Hv : (v = u * 64 + (byte c3 - 0x80))%N) by reflexivity.
  assert (Hu : (u = t * 64 + (byte c2 - 0x80))%N) by reflexivity.
  assert (Ht : (t = (byte c0 - 0xF0) * 64 + (byte c1 - 0x80))%N) by reflexivity.
  assert (Hq1 : (v / 64 = u)%N) by lia_div.
  assert (Hq2 : (v / 4096 = t)%N).
  { change 4096%N with (64 * 64)%N. rewrite <- N.Div0.div_div, Hq1. lia_div. }
  assert (Hq3 : (v / 262144 = byte c0 - 0xF0)%N).
  { change 262144%N with (4096 * 64)%N. rewrite <- N.Div0.div_div, Hq2. lia_div. }
  assert (Hb3 : (0x80 + v mod 64 = byte c3)%N) by lia_div.
  assert (Hb2 : (0x80 + u mod 64 = byte c2)%N) by lia_div.
  assert (Hb1 : (0x80 + t mod 64 = byte c1)%N) by lia_div.
  unfold utf8_of_code_point.
  destruct (N.ltb_spec v 0x80); [lia|].
  destruct (N.ltb_spec v 0x800); [lia|].
  destruct (N.ltb_spec v 0x10000); [lia|].
  replace ((0xDC80 <=? v) && (v <? 0xDD00))%N with false
    by (symmetry; apply andb_false_iff; right; apply N.ltb_ge; lia).
  rewrite Hq3, Hq2, Hq1, Hb3, Hb2, Hb1.
  replace (0xF0 + (byte c0 - 0xF0))%N with (byte c0) by lia.
  rewrite !ascii_of_byte. reflexivity.
Qed.

(** Induction on a string along the sequences [utf8_decode] reads. *)
Lemma utf8_decode_ind (P : list ascii -> list N -> Prop) :
  P [] [] ->
  (forall c s, (byte c < 0x80)%N -> P s (utf8_decode s) ->
               P (c :: s) (byte c :: utf8_decode s)) ->
  (forall c0 c1 s, well_formed2 (byte c0) (byte c1) = true -> P s (utf8_decode s) ->
                   P (c0 :: c1 :: s) (two_bytes (byte c0) (byte c1) :: utf8_decode s)) ->
  (forall c0 c1 c2 s, well_formed3 (byte c0) (byte c1) (byte c2) = true ->
                      P s (utf8_decode s) ->
                      P (c0 :: c1 :: c2 :: s)
                        (three_bytes (byte c0) (byte c1) (byte c2) :: utf8_decode s)) ->
  (forall c0 c1 c2 c3 s, well_formed4 (byte c0) (byte c1) (byte c2) (byte c3) = true ->
                         P s (utf8_decode s) ->
                         P (c0 :: c1 :: c2 :: c3 :: s)
                           (four_bytes (byte c0) (byte c1) (byte c2) (byte c3)
                            :: utf8_decode s)) ->
  (forall c s, (0x80 <= byte c)%N -> P s (utf8_decode s) ->
               P (c :: s) ((0xDC00 + byte c)%N :: utf8_decode s)) ->
  forall s, P s (utf8_decode s).
Proof.
  intros Hnil H1 H2 H3 H4 He.
  assert (H : forall n s, (length s <= n)%nat -> P s (utf8_decode s)).
  { induction n as [|n IH]; intros s Hn.
    - destruct s; [exact Hnil | cbn in Hn; lia].
    - destruct s as [|c0 s1]; [exact Hnil|].
      cbn [length] in Hn. cbn [utf8_decode].
      destruct (N.ltb_spec (byte c0) 0x80) as [Hlt|Hge]; [apply H1; [exact Hlt | apply IH; lia]|].
      assert (Hesc : P (c0 :: s1) ((0xDC00 + byte c0)%N :: utf8_decode s1))
        by (apply He; [exact Hge | apply IH; lia]).
      destruct s1 as [|c1 s2]; [exact Hesc|]. cbn [length] in Hn.
      destruct (well_formed2 (byte c0) (byte c1)) eqn:E2; [apply H2; [exact E2 | apply IH; lia]|].
      destruct s2 as [|c2 s3]; [exact Hesc|]. cbn [length] in Hn.
      destruct (well_formed3 (byte c0) (byte c1) (byte c2)) eqn:E3;
        [apply H3; [exact E3 | apply IH; lia]|].
      destruct s3 as [|c3 s4]; [exact Hesc|]. cbn [length] in Hn.
      destruct (well_formed4 (byte c0) (byte c1) (byte c2) (byte c3)) eqn:E4;
        [apply H4; [exact E4 | apply IH; lia] | exact Hesc]. }
  intros s. apply (H (length s)). lia.
Qed.

(** The bytes of a string are the bytes of its code points: no two strings
    have the same code points. *)
Lemma utf8_encode_decode s : utf8_encode (utf8_decode s) = s.
Proof.
  apply (utf8_decode_ind (fun s l => utf8_encode l = s)).
  - reflexivity.
  - intros c s' Hc IH. rewrite utf8_encode_cons, IH.
    rewrite (utf8_of_one _) by exact Hc. reflexivity.
  - intros c0 c1 s' Hwf IH. rewrite utf8_encode_cons, IH.
    rewrite (utf8_of_two _) by exact Hwf. reflexivity.
  - intros c0 c1 c2 s' Hwf IH.
    rewrite utf8_encode_cons, IH. rewrite (utf8_of_three _) by exact Hwf. reflexivity.
  - intros c0 c1 c2 c3 s' Hwf IH.
    rewrite utf8_encode_cons, IH. rewrite (utf8_of_four _) by exact Hwf. reflexivity.
  - intros c s' Hc IH. rewrite utf8_encode_cons, IH.
    rewrite (utf8_of_escaped _) by exact Hc. reflexivity.
Qed.

Lemma code_points_inj s s' : code_points s = code_points s' -> s = s'.
Proof.
  unfold code_points. intros H. apply (f_equal utf8_encode) in H.
  rewrite !utf8_encode_decode in H.
  rewrite <- (string_of_list_ascii_of_string s), <- (string_of_list_ascii_of_string s'), H.
  reflexivity.
Qed.

(** The code points of a string are code points, and none of them is a
    high surrogate. *)
Lemma utf8_decode_plain s : plain (utf8_decode s) = true.
Proof.
  apply (utf8_decode_ind (fun _ l => plain l = true)); try reflexivity.
  - intros c s' Hc IH. cbn [plain forallb]. fold (plain (utf8_decode s')). rewrite IH.
    unfold plain_point, is_high_surrogate. decide_tests; try reflexivity.
  - intros c0 c1 s' Hwf IH. cbn [plain forallb]. fold (plain (utf8_decode s')). rewrite IH.
    unfold well_formed2, continuation in Hwf. bool_hyps.
    assert (two_bytes (byte c0) (byte c1) < 0x800)%N by (unfold two_bytes; lia).
    unfold plain_point, is_high_surrogate. decide_tests; try reflexivity.
  - intros c0 c1 c2 s' Hwf IH. cbn [plain forallb]. fold (plain (utf8_decode s')). rewrite IH.
    destruct (three_bytes_parts _ _ _ Hwf) as (Hr & Hns & _).
    unfold plain_point, is_high_surrogate. decide_tests; try reflexivity.
  - intros c0 c1 c2 c3 s' Hwf IH. cbn [plain forallb]. fold (plain (utf8_decode s')).
    rewrite IH. unfold well_formed4 in Hwf. bool_hyps.
    unfold plain_point, is_high_surrogate. decide_tests; try reflexivity.
  - intros c s' Hc IH. cbn [plain forallb]. fold (plain (utf8_decode s')). rewrite IH.
    pose proof (byte_bound c).
    unfold plain_point, is_high_surrogate. decide_tests; try reflexivity.
Qed.

Lemma utf8_decode_ascii s : ascii_only s = true -> utf8_decode s = map byte s.
Proof.
  induction s as [|c s IH]; [reflexivity|].
  cbn [ascii_only forallb]. intros [Hc Hs]%andb_true_iff.
  cbn [utf8_decode map]. rewrite Hc, IH by exact Hs. reflexivity.
Qed.

(** A 7-bit text is its own UTF-8 encoding. *)
Lemma str_encode_ascii s :
  ascii_only (list_ascii_of_string s) = true -> str_encode s = Some (list_ascii_of_string s).
Proof.
  intros H. unfold str_encode, code_points. rewrite utf8_encode_decode.
  rewrite utf8_decode_ascii by exact H.
  replace (existsb is_surrogate (map byte (list_ascii_of_string s))) with false; [reflexivity|].
  symmetry. induction (list_ascii_of_string s) as [|c l IH]; [reflexivity|].
  cbn [ascii_only forallb] in H. apply andb_true_iff in H as [Hc Hl]. bool_hyps.
  cbn [map existsb]. rewrite IH by exact Hl.
  unfold is_surrogate. decide_tests; try reflexivity.
Qed.

(** ** Reading back what the encoder writes *)

(** Induction on JSON values, with the hypothesis for every item of an
    array and every value of an object. *)
Lemma json_nested_ind (P : json -> Prop) :
  (forall s, P (JString s)) ->
  (forall items, Forall P items -> P (JArray items)) ->
  (forall fields, Forall (fun kv => P (snd kv)) fields -> P (JObject fields)) ->
  forall v, P v.
Proof.
  intros HS HA HO.
  fix IH 1. intros [s|items|fields].
  - apply HS.
  - apply HA. induction items as [|x items IHitems]; constructor; [apply IH | exact IHitems].
  - apply HO. induction fields as [|[k x] fields IHfields]; constructor;
      [apply IH | exact IHfields].
Qed.

Lemma join_map_cons {A B : Type} (sep : list B) (f : A -> list B) (x : A) (l : list A) :
  join sep (map f (x :: l)) = f x ++ flat_map (fun y => sep ++ f y) l.
Proof.
  revert x. induction l as [|y l IH]; intros x.
  - cbn. rewrite app_nil_r. reflexivity.
  - change (join sep (map f (x :: y :: l))) with (f x ++ sep ++ join sep (map f (y :: l))).
    rewrite IH. cbn [flat_map]. rewrite <- !app_assoc. reflexivity.
Qed.

Lemma Forall_forallb_impl {A : Type} (f : A -> bool) (P : A -> Prop) (l : list A) :
  Forall (fun x => f x = true -> P x) l -> forallb f l = true -> Forall P l.
Proof.
  induction 1 as [|x l Hx _ IH]; [constructor|].
  cbn [forallb]. intros [Hfx Hl]%andb_true_iff. constructor; [apply Hx, Hfx | apply IH, Hl].
Qed.

Lemma hex_digit_cases (d : N) :
  (d < 16)%N ->
  (d = 0 \/ d = 1 \/ d = 2 \/ d = 3 \/ d = 4 \/ d = 5 \/ d = 6 \/ d = 7 \/ d = 8 \/ d = 9 \/
   d = 10 \/ d = 11 \/ d = 12 \/ d = 13 \/ d = 14 \/ d = 15)%N.
Proof. lia. Qed.

Lemma hex_value_digit d : (d < 16)%N -> hex_value (byte (hex_digit d)) = Some d.
Proof.
  intros H. apply hex_digit_cases in H.
  repeat (destruct H as [->|H]; [reflexivity|]). subst. reflexivity.
Qed.

Lemma hex_digit_ascii d : (d < 16)%N -> (byte (hex_digit d) <? 0x80)%N = true.
Proof.
  intros H. apply hex_digit_cases in H.
  repeat (destruct H as [->|H]; [reflexivity|]). subst. reflexivity.
Qed.

(** The four digits of [\uxxxx] read back as the number they write. *)
Lemma hex4_value_u n :
  (n < 0x10000)%N ->
  hex4_value (byte (hex_digit (n / 4096))) (byte (hex_digit ((n / 256) mod 16)))
             (byte (hex_digit ((n / 16) mod 16))) (byte (hex_digit (n mod 16)))
  = Some n.
Proof.
  intros H. unfold hex4_value. rewrite !hex_value_digit by lia_div. f_equal. lia_div.
Qed.

Lemma lex_string_u acc h1 h2 h3 h4 tl :
  lex_string acc (92 :: 117 :: h1 :: h2 :: h3 :: h4 :: tl)%N
  = match hex4_value h1 h2 h3 h4 with
    | None => None
    | Some uni =>
        if is_high_surrogate uni then
          match tl with
          | b :: u :: k1 :: k2 :: k3 :: k4 :: s4 =>
              if ((b =? 92) && (u =? 117))%N then
                match hex4_value k1 k2 k3 k4 with
                | None => None
                | Some uni2 =>
                    if is_low_surrogate uni2
                    then lex_string (join_surrogates uni uni2 :: acc) s4
                    else lex_string (uni :: acc) tl
                end
              else lex_string (uni :: acc) tl
          | _ => lex_string (uni :: acc) tl
          end
        else lex_string (uni :: acc) tl
    end.
Proof. reflexivity. Qed.

Lemma lex_string_literal c acc tl :
  c <> 34%N -> c <> 92%N -> (32 <= c)%N -> lex_string acc (c :: tl) = lex_string (c :: acc) tl.
Proof.
  intros H1 H2 H3. cbn [lex_string].
  destruct (N.eqb_spec c 34); [contradiction|].
  destruct (N.eqb_spec c 92); [contradiction|].
  destruct (N.ltb_spec c 32); [lia|]. reflexivity.
Qed.

Lemma map_byte_u_escape n :
  map byte (u_escape n)
  = [92; 117; byte (hex_digit (n / 4096)); byte (hex_digit ((n / 256) mod 16));
     byte (hex_digit ((n / 16) mod 16)); byte (hex_digit (n mod 16))]%N.
Proof. reflexivity. Qed.

Lemma lex_string_u_escape n acc tl :
  (n < 0x10000)%N -> is_high_surrogate n = false ->
  lex_string acc (map byte (u_escape n) ++ tl) = lex_string (n :: acc) tl.
Proof.
  intros Hn Hh. rewrite map_byte_u_escape. cbn [app].
  rewrite lex_string_u, hex4_value_u, Hh by exact Hn. reflexivity.
Qed.

(** The escapes of a pair of surrogates read back as the code point. *)
Lemma lex_string_pair n acc tl :
  (0x10000 <= n < 0x110000)%N ->
  lex_string acc (map byte (u_escape (0xD800 + (n - 0x10000) / 1024) ++
                            u_escape (0xDC00 + (n - 0x10000) mod 1024)) ++ tl)
  = lex_string (n :: acc) tl.
Proof.
  intros Hn.
  set (hi := (0xD800 + (n - 0x10000) / 1024)%N).
  set (lo := (0xDC00 + (n - 0x10000) mod 1024)%N).
  assert (Hhi : (0xD800 <= hi < 0xDC00)%N) by (unfold hi; lia_div).
  assert (Hlo : (0xDC00 <= lo < 0xE000)%N) by (unfold lo; lia_div).
  assert (Hjoin : join_surrogates hi lo = n) by (unfold join_surrogates, hi, lo; lia_div).
  assert (Hhigh : is_high_surrogate hi = true)
    by (unfold is_high_surrogate; apply andb_true_iff; split;
        [apply N.leb_le | apply N.ltb_lt]; lia).
  assert (Hlow : is_low_surrogate lo = true)
    by (unfold is_low_surrogate; apply andb_true_iff; split;
        [apply N.leb_le | apply N.ltb_lt]; lia).
  rewrite map_app, !map_byte_u_escape. cbn [app].
  rewrite lex_string_u, hex4_value_u, Hhigh by lia.
  change ((92 =? 92)%N && (117 =? 117)%N) with true. cbv iota.
  rewrite hex4_value_u, Hlow, Hjoin by lia. reflexivity.
Qed.

(** What the encoder writes for a code point is read as the code point. *)
Lemma lex_string_escape_char c acc tl :
  plain_point c = true ->
  lex_string acc (map byte (escape_char c) ++ tl) = lex_string (c :: acc) tl.
Proof.
  unfold plain_point. intros Hp. bool_hyps. unfold escape_char.
  destruct (N.eqb_spec c 34) as [->|]; [reflexivity|].
  destruct (N.eqb_spec c 92) as [->|]; [reflexivity|].
  destruct (N.eqb_spec c 8) as [->|]; [reflexivity|].
  destruct (N.eqb_spec c 12) as [->|]; [reflexivity|].
  destruct (N.eqb_spec c 10) as [->|]; [reflexivity|].
  destruct (N.eqb_spec c 13) as [->|]; [reflexivity|].
  destruct (N.eqb_spec c 9) as [->|]; [reflexivity|].
  destruct ((32 <=? c) && (c <=? 126))%N eqn:E.
  - bool_hyps. cbn [map app]. rewrite byte_of_ascii by lia. apply lex_string_literal; lia.
  - destruct (N.ltb_spec c 0x10000).
    + apply lex_string_u_escape; assumption.
    + apply lex_string_pair. lia.
Qed.

Lemma lex_string_escape s : forall acc rest,
  plain s = true ->
  lex_string acc (map byte (flat_map escape_char s) ++ 34%N :: rest)
  = cons (TString (rev acc ++ s)) <$> lex rest.
Proof.
  induction s as [|c s IH]; intros acc rest Hs.
  - cbn. rewrite app_nil_r. reflexivity.
  - cbn [plain forallb] in Hs. apply andb_true_iff in Hs as [Hc Hs].
    cbn [flat_map]. rewrite map_app, <- app_assoc, lex_string_escape_char, IH by assumption.
    cbn [rev]. rewrite <- app_assoc. reflexivity.
Qed.

Lemma lexes_nil : lexes [] [].
Proof. intros rest ts H. exact H. Qed.

Lemma lexes_app a ta b tb : lexes a ta -> lexes b tb -> lexes (a ++ b) (ta ++ tb).
Proof.
  intros Ha Hb rest ts H. rewrite map_app, <- !app_assoc. apply Ha, Hb, H.
Qed.

Lemma lexes_string s : plain s = true -> lexes (encode_string s) [TString s].
Proof.
  intros Hs rest ts H. unfold encode_string. cbn [map app].
  rewrite map_app, <- app_assoc. cbn [map app].
  change (lex (byte dquote :: map byte (flat_map escape_char s) ++ byte dquote :: rest))
    with (lex_string [] (map byte (flat_map escape_char s) ++ 34%N :: rest)).
  rewrite lex_string_escape, H by exact Hs. reflexivity.
Qed.

Lemma lexes_newline_indent indent level : lexes (newline_indent indent level) [].
Proof.
  intros rest ts H. unfold newline_indent. cbn [map app].
  change (lex (byte (ascii_of_nat 10) :: map byte (repeat " "%char (indent * level)) ++ rest))
    with (lex (map byte (repeat " "%char (indent * level)) ++ rest)).
  induction (indent * level)%nat as [|n IH]; [exact H | exact IH].
Qed.

Lemma lexes_punct (c : ascii) (t : token) :
  (forall rest, lex (byte c :: rest) = cons t <$> lex rest) -> lexes [c] [t].
Proof. intros Hc rest ts H. cbn [map app]. rewrite Hc, H. reflexivity. Qed.

Lemma lexes_join parts tparts sep tsep :
  Forall2 lexes parts tparts -> lexes sep tsep ->
  lexes (join sep parts) (join tsep tparts).
Proof.
  intros Hparts Hsep. induction Hparts as [|x tx parts tparts Hx Hrest IH].
  - apply lexes_nil.
  - destruct Hrest as [|y ty parts tparts Hy Hrest].
    + exact Hx.
    + change (lexes (x ++ sep ++ join sep (y :: parts))
                    (tx ++ tsep ++ join tsep (ty :: tparts))).
      apply lexes_app; [exact Hx|]. apply lexes_app; [exact Hsep | exact IH].
Qed.

Lemma lexes_separator indent level :
  lexes (chars "," ++ newline_indent indent level) [TComma].
Proof.
  change [TComma] with ([TComma] ++ []).
  apply lexes_app; [apply lexes_punct; reflexivity | apply lexes_newline_indent].
Qed.

(** The text of a value is lexed into the tokens of the value. *)
Lemma lexes_encode v :
  plain_json v = true -> forall indent level, lexes (encode indent level v) (tokens v).
Proof.
  induction v as [s|items IH|fields IH] using json_nested_ind; intros Hv indent level.
  - apply lexes_string. exact Hv.
  - cbn [plain_json] in Hv. pose proof (Forall_forallb_impl _ _ _ IH Hv) as IH'.
    destruct items as [|x items].
    + intros rest ts H. cbn. rewrite H. reflexivity.
    + change (lexes (chars "[" ++ newline_indent indent (S level) ++
                     join (chars "," ++ newline_indent indent (S level))
                          (map (encode indent (S level)) (x :: items)) ++
                     newline_indent indent level ++ chars "]")
                    ([TLBracket] ++ [] ++ join [TComma] (map tokens (x :: items)) ++
                     [] ++ [TRBracket])).
      apply lexes_app; [apply lexes_punct; reflexivity|].
      apply lexes_app; [apply lexes_newline_indent|].
      apply lexes_app; [|apply lexes_app;
                          [apply lexes_newline_indent | apply lexes_punct; reflexivity]].
      apply lexes_join; [|apply lexes_separator].
      apply Forall2_fmap, Forall_Forall2_diag.
      eapply Forall_impl; [exact IH'|]. intros y Hy. apply Hy.
  - cbn [plain_json] in Hv.
    assert (IH' : Forall (fun kv => plain (fst kv) = true /\
                                    forall indent level,
                                      lexes (encode indent level (snd kv)) (tokens (snd kv)))
                         fields).
    { clear -IH Hv. induction IH as [|kv fields Hkv _ IHf]; [constructor|].
      cbn [forallb] in Hv. apply andb_true_iff in Hv as [Hk Hf].
      apply andb_true_iff in Hk as [Hk Hx].
      constructor; [split; [exact Hk | apply Hkv, Hx] | apply IHf, Hf]. }
    destruct fields as [|x fields].
    + intros rest ts H. cbn. rewrite H. reflexivity.
    + change (lexes (chars "{" ++ newline_indent indent (S level) ++
                     join (chars "," ++ newline_indent indent (S level))
                          (map (fun kv => encode_string (fst kv) ++ chars ": " ++
                                          encode indent (S level) (snd kv)) (x :: fields)) ++
                     newline_indent indent level ++ chars "}")
                    ([TLBrace] ++ [] ++
                     join [TComma]
                          (map (fun kv => TString (fst kv) :: TColon :: tokens (snd kv))
                               (x :: fields)) ++
                     [] ++ [TRBrace])).
      apply lexes_app; [apply lexes_punct; reflexivity|].
      apply lexes_app; [apply lexes_newline_indent|].
      apply lexes_app; [|apply lexes_app;
                          [apply lexes_newline_indent | apply lexes_punct; reflexivity]].
      apply lexes_join; [|apply lexes_separator].
      apply Forall2_fmap, Forall_Forall2_diag.
      eapply Forall_impl; [exact IH'|]. intros [k y] [Hk Hy]. cbn [fst snd] in *.
      change (TString k :: TColon :: tokens y) with ([TString k] ++ [TColon] ++ tokens y).
      apply lexes_app; [apply lexes_string, Hk|].
      apply lexes_app; [|apply Hy].
      intros rest ts H. cbn. rewrite H. reflexivity.
Qed.

Lemma parse_first_item x stack rest :
  parse_tokens (PFirstItem stack) (tokens x ++ rest)
  = parse_tokens (PValue (FArray [] :: stack)) (tokens x ++ rest).
Proof. destruct x; reflexivity. Qed.

Lemma parse_items l :
  Forall (fun v => delivers (tokens v) v) l ->
  forall stack acc rest,
    parse_tokens (PNextItem stack acc)
      (flat_map (fun y => [TComma] ++ tokens y) l ++ TRBracket :: rest)
    = parse_tokens (deliver stack (JArray (rev acc ++ l))) rest.
Proof.
  induction 1 as [|y l Hy _ IH]; intros stack acc rest.
  - cbn. rewrite app_nil_r. reflexivity.
  - cbn [flat_map]. rewrite <- !app_assoc. cbn [app parse_tokens parse_step].
    rewrite Hy. cbn [deliver]. rewrite IH. cbn [rev]. rewrite <- app_assoc. reflexivity.
Qed.

Lemma parse_fields l :
  Forall (fun kv => delivers (tokens (snd kv)) (snd kv)) l ->
  forall stack acc rest,
    parse_tokens (PNextField stack acc)
      (flat_map (fun kv => [TComma] ++ TString (fst kv) :: TColon :: tokens (snd kv)) l
       ++ TRBrace :: rest)
    = parse_tokens (deliver stack (JObject (rev acc ++ l))) rest.
Proof.
  induction 1 as [|[k y] l Hy _ IH]; intros stack acc rest.
  - cbn. rewrite app_nil_r. reflexivity.
  - cbn [flat_map fst snd] in *. rewrite <- !app_assoc.
    cbn [app parse_tokens parse_step].
    rewrite Hy. cbn [deliver]. rewrite IH. cbn [rev]. rewrite <- app_assoc. reflexivity.
Qed.

(** The tokens of a value are parsed into the value. *)
Lemma delivers_tokens v : delivers (tokens v) v.
Proof.
  induction v as [s|items IH|fields IH] using json_nested_ind; intros stack rest.
  - reflexivity.
  - destruct items as [|x items]; [reflexivity|].
    cbn [tokens]. rewrite join_map_cons. inversion IH as [|? ? Hx Hitems]; subst.
    cbn [app parse_tokens parse_step start_value]. rewrite <- !app_assoc.
    rewrite parse_first_item, Hx. cbn [deliver app].
    rewrite (parse_items items Hitems). reflexivity.
  - destruct fields as [|[k x] fields]; [reflexivity|].
    cbn [tokens]. rewrite join_map_cons. inversion IH as [|? ? Hx Hfields]; subst.
    cbn [fst snd] in Hx.
    cbn [app parse_tokens parse_step start_value fst snd]. rewrite <- !app_assoc.
    cbn [app]. rewrite Hx. cbn [deliver].
    rewrite (parse_fields fields Hfields). reflexivity.
Qed.

(** ** The text of the export *)

Lemma ascii_only_app a b : ascii_only (a ++ b) = ascii_only a && ascii_only b.
Proof. apply forallb_app. Qed.

Lemma ascii_only_u_escape n : (n < 0x10000)%N -> ascii_only (u_escape n) = true.
Proof.
  intros H. unfold u_escape. cbn [ascii_only forallb].
  rewrite !hex_digit_ascii by lia_div. reflexivity.
Qed.

Lemma ascii_only_escape_char c : (c < 0x110000)%N -> ascii_only (escape_char c) = true.
Proof.
  intros Hc. unfold escape_char.
  destruct (N.eqb_spec c 34); [reflexivity|].
  destruct (N.eqb_spec c 92); [reflexivity|].
  destruct (N.eqb_spec c 8); [reflexivity|].
  destruct (N.eqb_spec c 12); [reflexivity|].
  destruct (N.eqb_spec c 10); [reflexivity|].
  destruct (N.eqb_spec c 13); [reflexivity|].
  destruct (N.eqb_spec c 9); [reflexivity|].
  destruct ((32 <=? c) && (c <=? 126))%N eqn:E.
  - bool_hyps. cbn [ascii_only forallb]. rewrite byte_of_ascii by lia.
    destruct (N.ltb_spec c 0x80); [reflexivity | lia].
  - destruct (N.ltb_spec c 0x10000).
    + apply ascii_only_u_escape. assumption.
    + rewrite ascii_only_app, !ascii_only_u_escape by lia_div. reflexivity.
Qed.

Lemma ascii_only_encode_string s : plain s = true -> ascii_only (encode_string s) = true.
Proof.
  intros Hs.
  assert (H : ascii_only (flat_map escape_char s) = true).
  { induction s as [|c s IH]; [reflexivity|].
    cbn [plain forallb] in Hs. apply andb_true_iff in Hs as [Hc Hs].
    unfold plain_point in Hc. bool_hyps.
    cbn [flat_map]. rewrite ascii_only_app, ascii_only_escape_char, IH by assumption.
    reflexivity. }
  unfold encode_string.
  change (dquote :: flat_map escape_char s ++ [dquote])
    with ([dquote] ++ (flat_map escape_char s ++ [dquote])).
  rewrite ascii_only_app, ascii_only_app, H. reflexivity.
Qed.

Lemma ascii_only_newline_indent indent level :
  ascii_only (newline_indent indent level) = true.
Proof.
  unfold newline_indent. cbn. induction (indent * level)%nat as [|n IH]; [reflexivity|exact IH].
Qed.

Lemma ascii_only_join sep parts :
  ascii_only sep = true -> Forall (fun p => ascii_only p = true) parts ->
  ascii_only (join sep parts) = true.
Proof.
  intros Hsep Hparts. induction Hparts as [|x parts Hx Hrest IH]; [reflexivity|].
  destruct parts as [|y parts]; [exact Hx|].
  change (join sep (x :: y :: parts)) with (x ++ sep ++ join sep (y :: parts)).
  rewrite !ascii_only_app, Hx, Hsep, IH. reflexivity.
Qed.

(** With [ensure_ascii] every character written is a 7-bit one. *)
Lemma ascii_only_encode v :
  plain_json v = true -> forall indent level, ascii_only (encode indent level v) = true.
Proof.
  induction v as [s|items IH|fields IH] using json_nested_ind; intros Hv indent level.
  - apply ascii_only_encode_string. exact Hv.
  - cbn [plain_json] in Hv. pose proof (Forall_forallb_impl _ _ _ IH Hv) as IH'.
    destruct items as [|x items]; [reflexivity|].
    change (encode indent level (JArray (x :: items)))
      with (chars "[" ++ newline_indent indent (S level) ++
            join (chars "," ++ newline_indent indent (S level))
                 (map (encode indent (S level)) (x :: items)) ++
            newline_indent indent level ++ chars "]").
    rewrite !ascii_only_app, !ascii_only_newline_indent, ascii_only_join; [reflexivity| |].
    + rewrite ascii_only_app, ascii_only_newline_indent. reflexivity.
    + apply Forall_fmap. eapply Forall_impl; [exact IH'|]. intros y Hy. apply Hy.
  - cbn [plain_json] in Hv.
    assert (IH' : Forall (fun kv => plain (fst kv) = true /\
                                    forall indent level,
                                      ascii_only (encode indent level (snd kv)) = true)
                         fields).
    { clear -IH Hv. induction IH as [|kv fields Hkv _ IHf]; [constructor|].
      cbn [forallb] in Hv. apply andb_true_iff in Hv as [Hk Hf].
      apply andb_true_iff in Hk as [Hk Hx].
      constructor; [split; [exact Hk | apply Hkv, Hx] | apply IHf, Hf]. }
    destruct fields as [|x fields]; [reflexivity|].
    change (encode indent level (JObject (x :: fields)))
      with (chars "{" ++ newline_indent indent (S level) ++
            join (chars "," ++ newline_indent indent (S level))
                 (map (fun kv => encode_string (fst kv) ++ chars ": " ++
                                 encode indent (S level) (snd kv)) (x :: fields)) ++
            newline_indent indent level ++ chars "}").
    rewrite !ascii_only_app, !ascii_only_newline_indent, ascii_only_join; [reflexivity| |].
    + rewrite ascii_only_app, ascii_only_newline_indent. reflexivity.
    + apply Forall_fmap. eapply Forall_impl; [exact IH'|]. intros [k y] [Hk Hy].
      unfold compose. cbn [fst snd] in *.
      rewrite !ascii_only_app, ascii_only_encode_string, Hy by exact Hk. reflexivity.
Qed.

(** Whatever [json.dumps] writes, with whatever indent, reads back as the
    value that was written, provided no string of the value holds a high
    surrogate. *)
Lemma json_loads_dumps v indent :
  plain_json v = true -> json_loads (json_dumps v indent) = Some v.
Proof.
  intros Hv. unfold json_loads, json_dumps, code_points.
  rewrite list_ascii_of_string_of_list_ascii.
  rewrite utf8_decode_ascii by (apply ascii_only_encode; exact Hv).
  rewrite <- (app_nil_r (map byte (encode indent 0 v))).
  rewrite (lexes_encode v Hv indent 0%nat [] [] eq_refl). cbn [mbind option_bind].
  rewrite (delivers_tokens v [] []). reflexivity.
Qed.

(** The export holds strings of the script only. *)
Lemma plain_history_data now h : plain_json (history_data now h) = true.
Proof.
  unfold history_data, code_points. cbn [plain_json forallb fst snd].
  rewrite !utf8_decode_plain. cbn [andb]. rewrite andb_true_r.
  induction h as [|m h IH]; [reflexivity|].
  cbn [map forallb]. rewrite IH, andb_true_r.
  unfold message_json, code_points. cbn [plain_json forallb fst snd].
  rewrite !utf8_decode_plain. reflexivity.
Qed.

(** The export is laid out with two spaces per level, one field and one
    message per line. *)
Lemma encode_history_data now h : encode 2 0 (history_data now h) = export_layout now h.
Proof.
  assert (Hmsg : forall m, encode 2 2 (message_json m) = message_layout m).
  { intros m. unfold message_layout, message_json.
    cbn [encode map join fst snd]. rewrite <- !app_assoc. reflexivity. }
  assert (Harr : encode 2 1 (JArray (map message_json h)) = messages_layout h).
  { destruct h as [|m h]; [reflexivity|].
    change (encode 2 1 (JArray (map message_json (m :: h))))
      with (chars "[" ++ newline_indent 2 2 ++
            join (chars "," ++ newline_indent 2 2)
                 (map (encode 2 2) (map message_json (m :: h))) ++
            newline_indent 2 1 ++ chars "]").
    rewrite map_map, (map_ext _ _ Hmsg). reflexivity. }
  unfold export_layout, history_data. rewrite <- Harr.
  cbn [encode map join fst snd]. rewrite <- !app_assoc. reflexivity.
Qed.

(** C6.  Pressing "Download Chat History" offers a document, and leaves
    the session as it is.  The document reads back as a JSON object with
    exactly the fields [timestamp] and [messages], in this order: the
    timestamp is a string in ISO-8601 form that reads back as the moment the
    clock gave, and the messages are as many as the history has turns, each
    the [role]/[content] object of the turn at the same position, with the
    code points of the turn's texts whatever they are.  The text is laid
    out with an indent of two spaces, is made of 7-bit characters only and
    so is its own UTF-8 encoding, and the file name is [chat_history_]
    followed by the stamp [YYYYMMDD_HHMMSS] of the clock and [.json]. *)
Theorem export_is_timestamped_snapshot (w : World) (now_data now_name : datetime) :
  valid_datetime now_data = true ->
  valid_datetime now_name = true ->
  (1000 <= year now_name)%N ->
  exists button ts msgs stamp,
    sidebar_download true now_data now_name w = (Normal (Some button), w) /\
    download_chat_history now_data w = (Normal (data button), w) /\
    json_loads (data button)
    = Some (JObject [(code_points "timestamp", JString ts);
                     (code_points "messages", JArray msgs)]) /\
    fromisoformat (utf8_encode ts) = Some now_data /\
    length msgs = length (chat_history w) /\
    (forall i m,
       chat_history w !! i = Some m ->
       msgs !! i = Some (JObject [(code_points "role", JString (code_points (role m)));
                                  (code_points "content", JString (code_points (content m)))])) /\
    (forall i, msgs !! i = message_json <$> chat_history w !! i) /\
    list_ascii_of_string (data button) = export_layout now_data (chat_history w) /\
    ascii_only (list_ascii_of_string (data button)) = true /\
    str_encode (data button) = Some (list_ascii_of_string (data button)) /\
    file_name button = "chat_history_" +:+ string_of_list_ascii stamp +:+ ".json" /\
    length stamp = 15%nat /\
    read_stamp stamp
    = Some (year now_name, month now_name, day now_name,
            hour now_name, minute now_name, second now_name) /\
    mime button = "application/json".
Proof.
  intros Hdata Hname _.
  eexists _, (utf8_decode (isoformat now_data)), (map message_json (chat_history w)),
    (strftime_stamp now_name).
  split; [reflexivity|]. cbn [data file_name mime].
  split; [reflexivity|].
  split; [apply (json_loads_dumps (history_data now_data (chat_history w))),
            plain_history_data|].
  split; [rewrite utf8_encode_decode; apply fromisoformat_isoformat, Hdata|].
  split; [apply length_map|].
  split; [intros i m Hm; apply (f_equal (fmap message_json)) in Hm;
          rewrite list_lookup_fmap; exact Hm|].
  split; [intros i; apply list_lookup_fmap|].
  assert (Hascii : ascii_only (list_ascii_of_string
                                 (json_dumps (history_data now_data (chat_history w)) 2))
                   = true).
  { unfold json_dumps. rewrite list_ascii_of_string_of_list_ascii.
    apply ascii_only_encode, plain_history_data. }
  split; [unfold json_dumps; rewrite list_ascii_of_string_of_list_ascii;
          apply encode_history_data|].
  split; [exact Hascii|].
  split; [apply str_encode_ascii, Hascii|].
  split; [reflexivity|].
  split; [|split; [apply read_stamp_strftime, Hname | reflexivity]].
  unfold strftime_stamp. rewrite !length_app, !zero_pad_length. reflexivity.
Qed.

Lemma export_is_timestamped_snapshot_witness :
  exists button,
    sidebar_download true example_now example_now unicode_world
    = (Normal (Some button), unicode_world) /\
    file_name button = "chat_history_20240309_140507.json" /\
    (exists ts msgs,
       json_loads (data button)
       = Some (JObject [(code_points "timestamp", JString ts);
                        (code_points "messages", JArray msgs)]) /\
       utf8_encode ts = chars "2024-03-09T14:05:07.123456" /\
       msgs !! 0%nat
       = Some (JObject [(code_points "role", JString (code_points "user"));
                        (code_points "content",
                         JString [99; 97; 102; 233; 32; 8364; 53; 32; 128512]%N)]) /\
       length msgs = 2%nat) /\
    encode_string (code_points "café €5 😀")
    = dquote :: chars "caf\u00e9 \u20ac5 \ud83d\ude00" ++ [dquote].
Proof.
  destruct (export_is_timestamped_snapshot unicode_world example_now example_now)
    as (button & ts & msgs & stamp & Hbtn & _ & Hload & _ & Hlen & Hmsg & _);
    [reflexivity | reflexivity | vm_compute; discriminate |].
  exists button. split; [exact Hbtn|].
  assert (Hb : Some button
               = Some (mkDownloadButton "Download JSON"
                         (json_dumps (history_data example_now (chat_history unicode_world)) 2)
                         "chat_history_20240309_140507.json" "application/json")).
  { assert (H := Hbtn). vm_compute in H. vm_compute. congruence. }
  split; [injection Hb as ->; reflexivity|].
  split; [|vm_compute; reflexivity].
  exists ts, msgs. split; [exact Hload|]. split; [|split; [|exact Hlen]].
  - injection Hb as ->. cbn [data] in Hload.
    rewrite json_loads_dumps in Hload by apply plain_history_data.
    injection Hload as <- _. vm_compute. reflexivity.
  - rewrite (Hmsg 0%nat (user_turn "café €5 😀") eq_refl). vm_compute. reflexivity.
Defined.

(* ================================================================== *)
(** * Further properties of the script *)
(* ================================================================== *)

(** ** Speech *)

Ltac effects_done :=
  repeat split; cbn; try reflexivity;
  try (eexists; rewrite <- ?app_assoc; reflexivity);
  try (exists []; rewrite app_nil_r; reflexivity).

(** [generate_speech] never raises: it answers whether the save went
    through, and sends exactly one request, with the voice selected then. *)
Lemma generate_speech_spec env text f w :
  exists w',
    generate_speech env text f w
    = (Normal (match tts_save env with Ok _ => true | Fails _ => false end), w') /\
    session_frame w w' /\ system_tested w' = system_tested w /\
    tts_requests w' = tts_requests w ++ [(text, selected_voice w)] /\
    temp_dir w'
    = match tts_save env with
      | Ok _ => <[f := RegularFile]> (temp_dir w)
      | Fails _ => if tts_partial_file env then <[f := RegularFile]> (temp_dir w)
                   else temp_dir w
      end /\
    ui w'
    = ui w ++ match tts_save env with
              | Ok _ => []
              | Fails e =>
                  match exn_cls e with
                  | NoAudioReceived =>
                      [UiError ("Voice " +:+ selected_voice w +:+ " failed to generate speech")]
                  | _ => [UiError ("Error generating speech: " +:+ exn_str e)]
                  end
              end.
Proof.
  unfold generate_speech, communicate_save, try_except, bind, gets, modify, ret, raise,
    st_error. cbn.
  destruct (tts_save env) as [[]|e]; cbn.
  - eexists. split; [reflexivity|]. cbn. rewrite app_nil_r. effects_done.
  - destruct (tts_partial_file env); cbn; destruct (exn_cls e); cbn;
      (eexists; split; [reflexivity|]; cbn; effects_done).
Qed.

Ltac run_speak :=
  unfold speak, call, try_except, bind, gets, modify, os_path_exists, os_remove, ask, ret,
    raise, return_, st_error;
  cbn -[generate_speech].

Lemma speak_effects env text w :
  exists w',
    speak env text w = (Normal tt, w') /\ session_frame w w' /\
    system_tested w' = system_tested w /\
    tts_requests w' = tts_requests w ++ [(text, selected_voice w)].
Proof.
  run_speak.
  destruct (generate_speech_spec env text ("tts_" +:+ tts_uuid env +:+ ".mp3") w)
    as (w1 & -> & (Hh & Hl & Hv & Ha & evs & Hu) & Hs & Ht & _).
  cbn.
  repeat (run_step; cbn in *; simplify_eq);
    (eexists; split; [reflexivity|]; unfold session_frame; cbn;
     rewrite ?Hh, ?Hl, ?Hv, ?Ha, ?Hs, ?Ht, ?Hu; repeat split;
     try (eexists; rewrite <- ?app_assoc; reflexivity);
     exists evs; reflexivity).
Qed.

(** X1.  [speak] never raises, whatever the synthesiser, the mixer and the
    file system answer; it leaves the history, the model log, the voice
    settings and the test flag alone, sends the synthesiser exactly one
    request, with the text and the voice selected at that moment, and only
    adds messages to the page. *)
Theorem speak_never_raises (env : Env) (text : string) (w : World) :
  (speak env text w).1 = Normal tt /\
  chat_history (speak env text w).2 = chat_history w /\
  llm_requests (speak env text w).2 = llm_requests w /\
  selected_voice (speak env text w).2 = selected_voice w /\
  available_voices (speak env text w).2 = available_voices w /\
  system_tested (speak env text w).2 = system_tested w /\
  tts_requests (speak env text w).2 = tts_requests w ++ [(text, selected_voice w)] /\
  exists evs, ui (speak env text w).2 = ui w ++ evs.
Proof.
  destruct (speak_effects env text w) as (w' & -> & (Hh & Hl & Hv & Ha & Hu) & Hs & Ht).
  cbn. auto 10.
Qed.

(** X2.  When playing ends normally or with [pygame.error], the mixer
    lets the file go ([unload] does not raise) and so does the operating
    system, [speak] leaves the directory as it found it, without its speech
    file: the file is removed after playback, failed or not. *)
Theorem speak_removes_its_file (env : Env) (text : string) (w : World) :
  (mixer_play env = Ok tt \/
   exists pe, mixer_play env = Fails pe /\ exn_cls pe = PygameError) ->
  mixer_unload env = Ok tt ->
  remove_tts env = Ok tt ->
  temp_dir w !! tts_file env <> Some Directory ->
  temp_dir (speak env text w).2 = delete (tts_file env) (temp_dir w).
Proof.
  intros Hplay Hul Hrm Hdir. unfold tts_file in *. run_speak.
  destruct (generate_speech_spec env text ("tts_" +:+ tts_uuid env +:+ ".mp3") w)
    as (w1 & -> & _ & _ & _ & Hd & _).
  cbn. rewrite Hd, Hrm, Hul.
  destruct (tts_save env) as [[]|e]; [|destruct (tts_partial_file env)];
    rewrite ?lookup_insert_eq; cbn;
    try (destruct Hplay as [-> | (pe & -> & Hpe)]; cbn; rewrite ?Hpe; cbn;
         rewrite ?Hd, ?lookup_insert_eq; cbn; rewrite ?Hd; apply delete_insert_eq).
  destruct (temp_dir w !! ("tts_" +:+ tts_uuid env +:+ ".mp3")) as [[|]|] eqn:Hf; cbn.
  - destruct Hplay as [-> | (pe & -> & Hpe)]; cbn; rewrite ?Hpe; cbn;
      rewrite ?Hd, ?Hf; cbn; rewrite ?Hd; reflexivity.
  - congruence.
  - rewrite Hd. symmetry. apply delete_id. exact Hf.
Qed.

Lemma speak_removes_its_file_witness :
  temp_dir (speak (example_env (Ok "RIFF") (Ok "hello") (Ok "hi there")) "hi there"
                  full_world).2
  = delete "tts_0002.mp3" (temp_dir full_world).
Proof.
  apply (speak_removes_its_file (example_env (Ok "RIFF") (Ok "hello") (Ok "hi there"))
           "hi there" full_world).
  - left. reflexivity.
  - reflexivity.
  - reflexivity.
  - vm_compute. discriminate.
Defined.

(** X3.  When the speech was saved and then playing raises something
    other than [pygame.error], or [unload] raises, or the removal of the
    file is refused, [speak] reports that exception as a speech error, with
    the traceback, and the speech file stays in the directory. *)
Theorem speak_failure_leaves_file (env : Env) (text : string) (w : World) (e : exn) :
  tts_save env = Ok tt ->
  (mixer_play env = Fails e /\ exn_cls e <> PygameError) \/
  ((mixer_play env = Ok tt \/
    exists pe, mixer_play env = Fails pe /\ exn_cls pe = PygameError) /\
   (mixer_unload env = Fails e \/
    (mixer_unload env = Ok tt /\ remove_tts env = Fails e))) ->
  temp_dir (speak env text w).2 !! tts_file env = Some RegularFile /\
  exists evs,
    ui (speak env text w).2
    = ui w ++ evs ++ [UiError ("Speech error: " +:+ exn_str e); UiError (format_exc env e)].
Proof.
  intros Hsave Hfail. unfold tts_file. run_speak.
  destruct (generate_speech_spec env text ("tts_" +:+ tts_uuid env +:+ ".mp3") w)
    as (w1 & -> & _ & _ & _ & Hd & Hu).
  rewrite Hsave in Hd, Hu. rewrite app_nil_r in Hu.
  cbn. rewrite Hd, lookup_insert_eq. cbn.
  destruct Hfail as [[-> Hcls] | [[-> | (pe & -> & Hpe)] [Hul | [Hul Hrm]]]]; cbn.
  - destruct (exn_cls e) eqn:Hc; try congruence; cbn;
      rewrite Hd, lookup_insert_eq, Hu; (split; [reflexivity|]); exists [];
      cbn; rewrite <- app_assoc; reflexivity.
  - rewrite Hul. cbn. rewrite Hd, lookup_insert_eq, Hu.
    split; [reflexivity|]. exists []. cbn. rewrite <- app_assoc. reflexivity.
  - rewrite Hul. cbn. rewrite Hd, lookup_insert_eq, Hrm. cbn. rewrite Hd, lookup_insert_eq, Hu.
    split; [reflexivity|]. exists []. cbn. rewrite <- app_assoc. reflexivity.
  - rewrite Hpe. cbn. rewrite Hul. cbn. rewrite Hd, lookup_insert_eq, Hu.
    split; [reflexivity|]. exists [UiError ("Pygame error: " +:+ exn_str pe)].
    cbn. rewrite <- !app_assoc. reflexivity.
  - rewrite Hpe. cbn. rewrite Hul. cbn. rewrite Hd, lookup_insert_eq, Hrm. cbn.
    rewrite Hd, lookup_insert_eq, Hu.
    split; [reflexivity|]. exists [UiError ("Pygame error: " +:+ exn_str pe)].
    cbn. rewrite <- !app_assoc. reflexivity.
Qed.

Lemma speak_failure_leaves_file_witness :
  temp_dir
    (speak (speech_env (Ok tt) false (Ok tt)
              (Fails (mkExn PygameError "mixer not initialized")) (Ok tt))
           "hi there" full_world).2
  !! "tts_0002.mp3" = Some RegularFile.
Proof.
  refine (proj1 (speak_failure_leaves_file
                   (speech_env (Ok tt) false (Ok tt)
                      (Fails (mkExn PygameError "mixer not initialized")) (Ok tt))
                   "hi there" full_world (mkExn PygameError "mixer not initialized") _ _)).
  - reflexivity.
  - right. split; [left; reflexivity | left; reflexivity].
Defined.

(** The answer of [test_audio_system], whatever the collaborators do. *)
Lemma test_audio_system_result (env : Env) (remove_test : answer unit) (w : World) :
  (test_audio_system env remove_test w).1
  = Normal (match tts_save env, remove_test with
            | Ok _, Ok _ => true
            | _, _ => false
            end).
Proof.
  unfold test_audio_system, try_except, bind, gets, modify, os_path_exists, os_remove, ask,
    ret, raise, st_error.
  cbn -[generate_speech].
  destruct (generate_speech_spec env "Test audio system." "test_audio.mp3" w)
    as (w1 & -> & _ & _ & _ & Hd & _).
  destruct (tts_save env) as [[]|e]; cbn.
  - rewrite Hd, lookup_insert_eq. cbn. rewrite Hd, lookup_insert_eq.
    destruct remove_test as [[]|e]; reflexivity.
  - reflexivity.
Qed.

(** X4.  [test_audio_system] never raises.  It answers [True] exactly when
    the speech was saved and the test file could be removed again, and then
    the directory is as before without the test file; when the save fails
    after creating the file, or the removal is refused, the test file stays.
    It sends the synthesiser one request, for the test sentence. *)
Theorem test_audio_system_spec (env : Env) (remove_test : answer unit) (w : World) :
  (test_audio_system env remove_test w).1
  = Normal (match tts_save env, remove_test with
            | Ok _, Ok _ => true
            | _, _ => false
            end) /\
  temp_dir (test_audio_system env remove_test w).2
  = match tts_save env, remove_test with
    | Ok _, Ok _ => delete "test_audio.mp3" (temp_dir w)
    | Ok _, Fails _ => <["test_audio.mp3" := RegularFile]> (temp_dir w)
    | Fails _, _ => if tts_partial_file env
                    then <["test_audio.mp3" := RegularFile]> (temp_dir w)
                    else temp_dir w
    end /\
  tts_requests (test_audio_system env remove_test w).2
  = tts_requests w ++ [("Test audio system.", selected_voice w)] /\
  chat_history (test_audio_system env remove_test w).2 = chat_history w /\
  selected_voice (test_audio_system env remove_test w).2 = selected_voice w /\
  system_tested (test_audio_system env remove_test w).2 = system_tested w.
Proof.
  unfold test_audio_system, try_except, bind, gets, modify, os_path_exists, os_remove, ask,
    ret, raise, st_error.
  cbn -[generate_speech].
  destruct (generate_speech_spec env "Test audio system." "test_audio.mp3" w)
    as (w1 & -> & (Hh & _ & Hv & _) & Hs & Ht & Hd & _).
  destruct (tts_save env) as [[]|e]; cbn.
  - rewrite Hd, lookup_insert_eq. cbn. rewrite Hd, lookup_insert_eq.
    destruct remove_test as [[]|e]; cbn; rewrite ?Hd, ?delete_insert_eq; auto 10.
  - auto 10.
Qed.

(** X5.  The audio test of the start-up runs once per session: the
    statement never raises and leaves the flag set; with the flag set it
    does nothing at all, so on every later run of the script the session is
    left as it is and the synthesiser is not asked again.  When it does run,
    the last message on the page says whether the audio works, and it says
    so exactly when the test answered [True]. *)
Theorem startup_audio_test_once (env env' : Env) (rm rm' : answer unit) (w : World) :
  (startup_audio_test env rm w).1 = Normal tt /\
  system_tested (startup_audio_test env rm w).2 = true /\
  (system_tested w = true -> startup_audio_test env rm w = (Normal tt, w)) /\
  startup_audio_test env' rm' (startup_audio_test env rm w).2
  = (Normal tt, (startup_audio_test env rm w).2) /\
  (system_tested w = false ->
   last (ui (startup_audio_test env rm w).2)
   = Some (match tts_save env, rm with
           | Ok _, Ok _ => UiSuccess "Audio system is working properly"
           | _, _ => UiError "Audio system is not working properly"
           end)).
Proof.
  assert (Hset : forall e r w0, system_tested w0 = true ->
                                startup_audio_test e r w0 = (Normal tt, w0)).
  { intros e r w0 H. unfold startup_audio_test, bind, gets, ret. rewrite H. reflexivity. }
  assert (Hrun : (startup_audio_test env rm w).1 = Normal tt /\
                 system_tested (startup_audio_test env rm w).2 = true /\
                 (system_tested w = false ->
                  last (ui (startup_audio_test env rm w).2)
                  = Some (match tts_save env, rm with
                          | Ok _, Ok _ => UiSuccess "Audio system is working properly"
                          | _, _ => UiError "Audio system is not working properly"
                          end))).
  { destruct (system_tested w) eqn:Htested.
    - rewrite (Hset _ _ _ Htested). cbn. split; [reflexivity|]. split; [exact Htested|].
      discriminate.
    - pose proof (test_audio_system_result env rm w) as Hr.
      destruct (test_audio_system env rm w) as [r w1] eqn:Et. cbn in Hr.
      assert (Es : startup_audio_test env rm w
                   = (Normal tt,
                      set_system_tested true
                        (set_ui (ui w1 ++
                                 [match tts_save env, rm with
                                  | Ok _, Ok _ => UiSuccess "Audio system is working properly"
                                  | _, _ => UiError "Audio system is not working properly"
                                  end]) w1))).
      { unfold startup_audio_test, bind, gets. rewrite Htested. cbn [negb].
        rewrite Et, Hr. unfold st_success, st_error, modify.
        destruct (tts_save env) as [[]|e]; [destruct rm as [[]|e]|]; reflexivity. }
      rewrite Es. cbn. split; [reflexivity|]. split; [reflexivity|].
      intros _. apply last_snoc. }
  destruct Hrun as (Hr & Ht & Hlast).
  split; [exact Hr|]. split; [exact Ht|]. split; [apply Hset|].
  split; [apply Hset, Ht | exact Hlast].
Qed.

Lemma startup_audio_test_once_witness :
  startup_audio_test (example_env (Ok "RIFF") (Ok "hello") (Ok "hi")) (Ok tt)
    (set_system_tested true full_world)
  = (Normal tt, set_system_tested true full_world).
Proof.
  apply (proj1 (proj2 (proj2 (startup_audio_test_once
           (example_env (Ok "RIFF") (Ok "hello") (Ok "hi"))
           (example_env (Ok "RIFF") (Ok "hello") (Ok "hi")) (Ok tt) (Ok tt)
           (set_system_tested true full_world))))).
  reflexivity.
Defined.

(** ** The sweep of the temporary directory *)



(** X7.  Sweeping twice is sweeping once, as far as the directory goes:
    with the same answers of the operating system a second sweep removes
    nothing more. *)
Theorem cleanup_old_files_twice (env : Env) (w : World) (f : string) :
  temp_dir (cleanup_old_files env (cleanup_old_files env w).2).2 !! f
  = temp_dir (cleanup_old_files env w).2 !! f.
Proof.
  destruct (cleanup_old_files_effects env w) as (w1 & -> & _ & _ & _ & H1 & _).
  cbn [snd].
  destruct (cleanup_old_files_effects env w1) as (w2 & -> & _ & _ & _ & H2 & _).
  cbn. rewrite H2, H1. apply swept_idempotent.
Qed.

(** ** What a cycle leaves alone *)

Ltac use_effects :=
  match goal with
  | |- context [speak ?e ?t ?w] =>
      let w' := fresh "w" in
      let H := fresh "Hsp" in
      destruct (speak_effects e t w) as (w' & -> & H);
      destruct H as ((? & ? & ? & ? & ? & ?) & ? & ?)
  | |- context [cleanup_old_files ?e ?w] =>
      let w' := fresh "w" in
      let H := fresh "Hcl" in
      destruct (cleanup_old_files_effects e w) as (w' & -> & H);
      destruct H as ((? & ? & ? & ? & ? & ?) & ? & ? & _ & _)
  end.

Ltac field_chain :=
  repeat match goal with
         | H : selected_voice ?a = _ |- context [selected_voice ?a] => rewrite H
         | H : available_voices ?a = _ |- context [available_voices ?a] => rewrite H
         | H : system_tested ?a = _ |- context [system_tested ?a] => rewrite H
         | H : tts_requests ?a = _ |- context [tts_requests ?a] => rewrite H
         | H : ui ?a = _ |- context [ui ?a] => rewrite H
         | H : llm_create ?a = _ |- context [llm_create ?a] => rewrite H
         end;
  cbn; rewrite <- ?app_assoc; first [reflexivity | rewrite app_nil_r; reflexivity].

Lemma cycle_effects env w :
  exists evs,
    selected_voice (transcribe_and_generate_response env w).2 = selected_voice w /\
    available_voices (transcribe_and_generate_response env w).2 = available_voices w /\
    system_tested (transcribe_and_generate_response env w).2 = system_tested w /\
    ui (transcribe_and_generate_response env w).2 = ui w ++ evs /\
    tts_requests (transcribe_and_generate_response env w).2
    = tts_requests w ++
      match (transcribe_and_generate_response env w).1 with
      | Raised Rerun => [(answer_text (llm_create env), selected_voice w)]
      | _ => []
      end.
Proof.
  unfold transcribe_and_generate_response, call, try_finally, try_except,
    chat_completions_create, chat_history_append, limit_history, os_path_exists, os_remove,
    open_wb, st_write, st_warning, st_error, st_rerun, bind, gets, modify, ask, ret, raise,
    return_.
  cbn -[speak cleanup_old_files].
  repeat (first [use_effects | run_step]; cbn -[speak cleanup_old_files] in *; simplify_eq).
  all: eexists; repeat split; field_chain.
Qed.

(** X8.  Once the reply is there, nothing the synthesiser, the mixer or
    the removal of the speech file does can change how the cycle ends: it
    ends with [st.rerun()], the history holds the user turn and the reply
    (trimmed to the cap), and the synthesiser was asked once, for the reply,
    with the voice selected in the session. *)
Theorem reply_survives_speech_failure (env : Env) (w : World) (t a : string) :
  transcribed env w t ->
  remove_audio env = Ok tt ->
  llm_create env = Ok a ->
  (transcribe_and_generate_response env w).1 = Raised Rerun /\
  chat_history (transcribe_and_generate_response env w).2
  = limit_history_list (chat_history w ++ [user_turn t; assistant_turn a]) /\
  tts_requests (transcribe_and_generate_response env w).2
  = tts_requests w ++ [(a, selected_voice w)].
Proof.
  intros Ht Hrm Hllm.
  destruct (cycle_effects env w) as (evs & _ & _ & _ & _ & Htts).
  pose proof (cycle_cases env w) as Hc.
  destruct (transcribe_and_generate_response env w) as [r w']. cbn in *.
  inversion Hc as [w1 evs1 Hno| t1 e1 w1 evs1 Ht1 Hrm1
                  | t1 e1 w1 evs1 Ht1 _ Hllm1
                  | t1 a1 w1 Ht1 _ Hllm1 Hh]; subst.
  - destruct (Hno t Ht).
  - congruence.
  - congruence.
  - assert (t1 = t) by (eapply transcribed_functional; eassumption).
    assert (a1 = a) by congruence. subst.
    split; [reflexivity|]. split; [exact Hh|]. rewrite Htts, Hllm. reflexivity.
Qed.

Lemma reply_survives_speech_failure_witness :
  chat_history
    (transcribe_and_generate_response
       (speech_env (Fails (mkExn NoAudioReceived "no audio")) true
                   (Fails (mkExn PygameError "bad file"))
                   (Fails (mkExn PygameError "mixer not initialized"))
                   (Fails (mkExn OtherException "busy")))
       (initial_world ∅)).2
  = [user_turn "hello"; assistant_turn "hi there"].
Proof.
  refine (proj1 (proj2 (reply_survives_speech_failure
            (speech_env (Fails (mkExn NoAudioReceived "no audio")) true
                        (Fails (mkExn PygameError "bad file"))
                        (Fails (mkExn PygameError "mixer not initialized"))
                        (Fails (mkExn OtherException "busy")))
            (initial_world ∅) "hello" "hi there" _ _ _))).
  - repeat split; try reflexivity.
    + exists "RIFF". split; [reflexivity | discriminate].
    + vm_compute. discriminate.
  - reflexivity.
  - reflexivity.
Defined.

(** X9.  A cycle never touches the voice settings or the test flag, never
    takes a message off the page and never takes a request out of the model
    log: what was there is still there, at the front. *)
Theorem cycle_leaves_settings (env : Env) (w : World) :
  selected_voice (transcribe_and_generate_response env w).2 = selected_voice w /\
  available_voices (transcribe_and_generate_response env w).2 = available_voices w /\
  system_tested (transcribe_and_generate_response env w).2 = system_tested w /\
  (exists evs, ui (transcribe_and_generate_response env w).2 = ui w ++ evs) /\
  (exists reqs, llm_requests (transcribe_and_generate_response env w).2
                = llm_requests w ++ reqs /\ (length reqs <= 1)%nat).
Proof.
  destruct (cycle_effects env w) as (evs & Hv & Ha & Hs & Hu & _).
  split; [exact Hv|]. split; [exact Ha|]. split; [exact Hs|]. split; [eauto|].
  pose proof (cycle_cases env w) as Hc.
  destruct (transcribe_and_generate_response env w) as [r w']. cbn in *.
  inversion Hc; subst;
    first [ exists []; rewrite app_nil_r; split; [assumption | cbn; lia]
          | eexists [_]; split; [eassumption | cbn; lia] ].
Qed.

Lemma spoken_role_not_system m : spoken_role m -> role m <> "system".
Proof. intros [H|H]; rewrite H; discriminate. Qed.

(** X10.  The history only ever holds turns of the user and of the
    assistant: a cycle keeps this, so the request it sends has the system
    message in front and no other system message behind it. *)
Theorem cycle_keeps_roles (env : Env) (w : World) :
  Forall spoken_role (chat_history w) ->
  Forall spoken_role (chat_history (transcribe_and_generate_response env w).2) /\
  (forall req,
     llm_requests (transcribe_and_generate_response env w).2 = llm_requests w ++ [req] ->
     exists rest,
       messages req = system_message :: rest /\
       Forall (fun m => role m <> "system") rest).
Proof.
  intros Hroles.
  pose proof (cycle_cases env w) as Hc.
  destruct (transcribe_and_generate_response env w) as [r w']. cbn in *.
  assert (Huser : forall t, Forall spoken_role (chat_history w ++ [user_turn t])).
  { intros t. apply Forall_app. split; [exact Hroles|].
    constructor; [left; reflexivity | constructor]. }
  assert (Hreq : forall t req,
             llm_requests w ++ [request_for (chat_history w ++ [user_turn t])]
             = llm_requests w ++ [req] ->
             exists rest, messages req = system_message :: rest /\
                          Forall (fun m => role m <> "system") rest).
  { intros t req Heq. apply app_inv_head in Heq. injection Heq as <-.
    eexists. split; [reflexivity|].
    eapply Forall_impl; [apply Huser|]. apply spoken_role_not_system. }
  inversion Hc as [w1 evs1 _ Hh Hl| t1 e1 w1 evs1 _ _ Hh Hl
                  | t1 e1 w1 evs1 _ _ _ Hh Hl
                  | t1 a1 w1 _ _ _ Hh Hl]; subst; rewrite Hh, Hl.
  - split; [exact Hroles|]. intros req Heq.
    apply (f_equal (@length Request)) in Heq. rewrite length_app in Heq. cbn in Heq. lia.
  - split; [apply Huser|]. intros req Heq.
    apply (f_equal (@length Request)) in Heq. rewrite length_app in Heq. cbn in Heq. lia.
  - split; [apply Huser|]. apply Hreq.
  - split; [|apply Hreq].
    rewrite limit_history_list_drop. apply Forall_drop.
    apply Forall_app. split; [exact Hroles|].
    constructor; [left; reflexivity|]. constructor; [right; reflexivity | constructor].
Qed.

Lemma cycle_keeps_roles_witness :
  Forall spoken_role
    (chat_history
       (transcribe_and_generate_response
          (example_env (Ok "RIFF") (Ok "hello") (Ok "hi there")) full_world).2).
Proof.
  refine (proj1 (cycle_keeps_roles (example_env (Ok "RIFF") (Ok "hello") (Ok "hi there"))
                   full_world _)).
  change (chat_history full_world) with full_history.
  cbv [full_history flat_map seq app].
  repeat (constructor; [first [left; reflexivity | right; reflexivity]|]).
  constructor.
Defined.

(** X11.  In one cycle the history gains at most one turn beyond the cap,
    and loses only what the trim takes: its new length lies between the
    smaller of the old length and the cap, and the larger of the old length
    plus one and the cap. *)
Theorem cycle_history_length (env : Env) (w : World) :
  (Nat.min (length (chat_history w)) 50
   <= length (chat_history (transcribe_and_generate_response env w).2))%nat /\
  (length (chat_history (transcribe_and_generate_response env w).2)
   <= Nat.max (length (chat_history w) + 1) 50)%nat.
Proof.
  pose proof (cycle_cases env w) as Hc.
  destruct (transcribe_and_generate_response env w) as [r w']. cbn in *.
  inversion Hc as [w1 evs1 _ Hh| t1 e1 w1 evs1 _ _ Hh
                  | t1 e1 w1 evs1 _ _ _ Hh
                  | t1 a1 w1 _ _ _ Hh]; subst; rewrite Hh;
    rewrite ?limit_history_list_length, ?length_app; cbn [length]; lia.
Qed.

(** X12.  The cap does not hold across cycles in which the model call
    fails: each of them adds the user turn and trims nothing, so after any
    number of such cycles the history is longer by that number. *)
Theorem failed_generations_grow_history (envs : list Env) : forall (w : World),
  all_generation_failed envs w ->
  length (chat_history (run_cycles envs w)) = (length (chat_history w) + length envs)%nat.
Proof.
  induction envs as [|env envs IH]; intros w Hall.
  - cbn. lia.
  - destruct Hall as [(t & e & Ht & Hrm & Hllm) Hall]. cbn [run_cycles length].
    rewrite (IH _ Hall).
    pose proof (cycle_cases env w) as Hc.
    destruct (transcribe_and_generate_response env w) as [r w']. cbn in *.
    inversion Hc as [w1 evs1 Hno| t1 e1 w1 evs1 _ Hrm1
                    | t1 e1 w1 evs1 _ _ _ Hh
                    | t1 a1 w1 _ _ Hllm1]; subst.
    + destruct (Hno t Ht).
    + congruence.
    + rewrite Hh, length_app. cbn. lia.
    + congruence.
Qed.

Lemma failed_generations_grow_history_witness :
  length (chat_history
            (run_cycles
               (repeat (example_env (Ok "RIFF") (Ok "hello")
                                    (Fails (mkExn OtherException "503"))) 3)
               full_world))
  = 53%nat.
Proof.
  apply (failed_generations_grow_history
           (repeat (example_env (Ok "RIFF") (Ok "hello")
                                (Fails (mkExn OtherException "503"))) 3) full_world).
  cbn [repeat all_generation_failed].
  repeat split; try (exists "hello", (mkExn OtherException "503"));
    repeat split; try reflexivity;
    try (exists "RIFF"; split; [reflexivity | discriminate]);
    vm_compute; discriminate.
Defined.

(** ** Clearing and exporting *)


Lemma chars_inj s s' : chars s = chars s' -> s = s'.
Proof.
  intros H. apply (f_equal string_of_list_ascii) in H. unfold chars in H.
  rewrite !string_of_list_ascii_of_string in H. exact H.
Qed.

Lemma map_message_json_inj h : forall h',
  map message_json h = map message_json h' -> h = h'.
Proof.
  induction h as [|m h IH]; intros [|m' h']; cbn [map]; try discriminate; [reflexivity|].
  intros H. injection H as Hr Hc Hh.
  f_equal; [|apply IH, Hh].
  destruct m as [r c], m' as [r' c']. cbn [role content] in Hr, Hc.
  apply code_points_inj in Hr, Hc. congruence.
Qed.

(** X14.  The export loses nothing.  Two values whose strings hold no high
    surrogate are written as the same text only when they are the same
    value; so two exports are the same document only when the histories
    behind them are the same, turn for turn, and the clock showed the same
    moment.  (A string of the script holds no high surrogate; a [str] that
    holds the two surrogates of a pair is written like the character of the
    pair, and is not among them.) *)
Theorem export_determines_history (now now' : datetime) (w w' : World) :
  (forall v v' indent,
     plain_json v = true -> plain_json v' = true ->
     json_dumps v indent = json_dumps v' indent -> v = v') /\
  ((download_chat_history now w).1 = (download_chat_history now' w').1 ->
   chat_history w = chat_history w' /\
   (valid_datetime now = true -> valid_datetime now' = true -> now = now')).
Proof.
  split.
  { intros v v' indent Hv Hv' Hdoc. apply (f_equal json_loads) in Hdoc.
    rewrite !json_loads_dumps in Hdoc by assumption. congruence. }
  unfold download_chat_history, bind, gets, ret. cbn -[json_dumps history_data].
  intros Hdoc.
  apply (f_equal (fun r => match r with Normal s => json_loads s | _ => None end)) in Hdoc.
  cbv beta iota in Hdoc. rewrite !json_loads_dumps in Hdoc by apply plain_history_data.
  assert (Hts : isoformat now = isoformat now').
  { rewrite <- (utf8_encode_decode (isoformat now)), <- (utf8_encode_decode (isoformat now')).
    exact (f_equal (fun o => match o with
                             | Some (JObject ((_, JString ts) :: _)) => utf8_encode ts
                             | _ => []
                             end) Hdoc). }
  assert (Hmsgs : map message_json (chat_history w) = map message_json (chat_history w')).
  { exact (f_equal (fun o => match o with
                             | Some (JObject (_ :: (_, JArray ms) :: _)) => ms
                             | _ => []
                             end) Hdoc). }
  split.
  - apply map_message_json_inj, Hmsgs.
  - intros Hv Hv'. apply (f_equal fromisoformat) in Hts.
    rewrite !fromisoformat_isoformat in Hts by assumption. congruence.
Qed.

Lemma export_determines_history_witness :
  chat_history full_world = chat_history (set_selected_voice "fr-FR-DeniseNeural" full_world).
Proof.
  apply (proj1 (proj2 (export_determines_history example_now example_now full_world
                         (set_selected_voice "fr-FR-DeniseNeural" full_world)) eq_refl)).
Defined.

(** ** The voice picker once more *)

Lemma sidebar_voice_picker_picked (w : World) (i : nat) (v : Voice) :
  available_voices w !! i = Some v ->
  exists v' j,
    list_index (display v) (map display (available_voices w)) = Some j /\
    available_voices w !! j = Some v' /\ display v' = display v /\
    sidebar_voice_picker (Some i) w = (Normal tt, set_selected_voice (name v') w).
Proof.
  intros Hv.
  assert (Hin : display v ∈ map display (available_voices w)).
  { apply list_elem_of_fmap. exists v. split; [reflexivity|].
    eapply list_elem_of_lookup_2. exact Hv. }
  destruct (list_index_elem _ _ Hin) as [j Hj].
  destruct (list_index_display _ _ _ Hj) as (v' & Hv' & Hd & Hn).
  exists v', j. split; [exact Hj|]. split; [exact Hv'|]. split; [exact Hd|].
  unfold sidebar_voice_picker, bind, gets, st_selectbox.
  destruct (available_voices w) as [|v1 vs] eqn:Hav; [discriminate Hv|].
  cbn [from_option]. rewrite list_lookup_fmap, Hv. cbn [fmap option_fmap option_map ret].
  rewrite Hj, Hn. reflexivity.
Qed.

(** X15.  With a catalogue that is not empty the picker always stores the
    name of a catalogued voice, whatever was picked; and when the labels
    tell the voices apart it stores the voice the user picked. *)
Theorem picker_follows_user_pick (w : World) (pick : option nat) :
  (available_voices w <> [] ->
   selected_voice (sidebar_voice_picker pick w).2 ∈ map name (available_voices w)) /\
  (forall i v,
     pick = Some i -> available_voices w !! i = Some v ->
     (forall v1 v2, v1 ∈ available_voices w -> v2 ∈ available_voices w ->
                    display v1 = display v2 -> name v1 = name v2) ->
     (sidebar_voice_picker pick w).1 = Normal tt /\
     selected_voice (sidebar_voice_picker pick w).2 = name v).
Proof.
  split.
  - intros Hne.
    destruct (sidebar_voice_picker_selects w pick Hne) as (d & v & j & _ & _ & Hv & _ & ->).
    cbn. apply list_elem_of_fmap. exists v. split; [reflexivity|].
    eapply list_elem_of_lookup_2. exact Hv.
  - intros i v -> Hv Hinj.
    destruct (sidebar_voice_picker_picked w i v Hv) as (v' & j & _ & Hv' & Hd & ->).
    cbn. split; [reflexivity|].
    apply Hinj; [eapply list_elem_of_lookup_2; exact Hv'
                | eapply list_elem_of_lookup_2; exact Hv | exact Hd].
Qed.

Lemma picker_follows_user_pick_witness :
  selected_voice
    (sidebar_voice_picker (Some 2%nat)
       ((initialize_voices (Ok example_catalog) (initial_world ∅)).2)).2
  = "fr-FR-DeniseNeural".
Proof.
  refine (proj2 (proj2 (picker_follows_user_pick
            ((initialize_voices (Ok example_catalog) (initial_world ∅)).2) (Some 2%nat))
            2%nat (mkVoice "fr-FR-DeniseNeural" "fr-FR - fr-FR-DeniseNeural")
            eq_refl eq_refl _)).
  intros v v' Hv Hv' Hd.
  apply list_elem_of_In in Hv, Hv'. cbn in Hv, Hv'.
  destruct Hv as [<-|[<-|[<-|[]]]]; destruct Hv' as [<-|[<-|[<-|[]]]];
    first [reflexivity | discriminate Hd].
Defined.

Lemma chars_append a b : chars (a +:+ b) = chars a ++ chars b.
Proof.
  unfold chars. induction a as [|c a IH]; [reflexivity|].
  change (String c a +:+ b) with (String c (a +:+ b)).
  cbn [list_ascii_of_string app]. f_equal. exact IH.
Qed.

Lemma until_space_app s rest :
  ~ In " "%char s -> until_space (s ++ " "%char :: rest) = s.
Proof.
  induction s as [|c s IH]; intros Hs; cbn; [reflexivity|].
  destruct (Ascii.eqb_spec c " ") as [->|Hne].
  - destruct Hs. left. reflexivity.
  - f_equal. apply IH. intros Hin. apply Hs. right. exact Hin.
Qed.

(** The last word of the label [Locale - ShortName] is the short name,
    when the short name has no space. *)
Lemma last_word_label locale short :
  space_free short -> last_word (locale +:+ " - " +:+ short) = chars short.
Proof.
  intros Hs. unfold last_word. fold (chars (locale +:+ " - " +:+ short)).
  rewrite !chars_append, !rev_app_distr.
  change (rev (chars " - ")) with (" "%char :: "-"%char :: " "%char :: []).
  rewrite <- app_assoc. cbn [app].
  rewrite until_space_app; [apply rev_involutive|].
  intros Hin. apply Hs. apply in_rev in Hin. exact Hin.
Qed.

Lemma default_idx_present names :
  Config.DEFAULT_VOICE ∈ names -> names !! default_idx names = Some Config.DEFAULT_VOICE.
Proof.
  intros Hin. destruct (list_index_elem _ _ Hin) as [i Hi].
  unfold default_idx. rewrite Hi. apply list_index_Some. exact Hi.
Qed.

Lemma default_idx_absent names :
  Config.DEFAULT_VOICE ∉ names -> default_idx names = 0%nat.
Proof.
  intros Hnin. unfold default_idx.
  destruct (list_index Config.DEFAULT_VOICE names) as [i|] eqn:Hi; [|reflexivity].
  destruct Hnin. eapply list_elem_of_lookup_2. apply list_index_Some. exact Hi.
Qed.

(** X16.  After the catalogue was loaded, and when no short name in it
    has a space, the first run of the picker stores the default voice if
    the catalogue has it and the first voice of the catalogue otherwise;
    the catalogue holds the short names in the order they came. *)
Theorem loaded_catalogue_selects_default (catalog : list RawVoice) (w : World) :
  catalog <> [] ->
  Forall (fun rv => space_free (ShortName rv)) catalog ->
  ((initialize_voices (Ok catalog) >> sidebar_voice_picker None) w).1 = Normal tt /\
  map name (available_voices
              ((initialize_voices (Ok catalog) >> sidebar_voice_picker None) w).2)
  = map ShortName catalog /\
  (Config.DEFAULT_VOICE ∈ map ShortName catalog ->
   selected_voice ((initialize_voices (Ok catalog) >> sidebar_voice_picker None) w).2
   = Config.DEFAULT_VOICE) /\
  (Config.DEFAULT_VOICE ∉ map ShortName catalog ->
   Some (selected_voice ((initialize_voices (Ok catalog) >> sidebar_voice_picker None) w).2)
   = head (map ShortName catalog)).
Proof.
  intros Hne Hfree.
  set (voices := map (fun voice => mkVoice (ShortName voice)
                                           (Locale voice +:+ " - " +:+ ShortName voice))
                     catalog).
  set (w1 := set_available_voices voices w).
  assert (Hinit : initialize_voices (Ok catalog) w = (Normal tt, w1)) by reflexivity.
  assert (Hnames : map name voices = map ShortName catalog).
  { unfold voices. rewrite map_map. reflexivity. }
  assert (Hinj : forall v v', v ∈ voices -> v' ∈ voices ->
                              display v = display v' -> name v = name v').
  { intros v v' Hv Hv' Hd. unfold voices in Hv, Hv'.
    apply list_elem_of_fmap in Hv as (rv & -> & Hrv).
    apply list_elem_of_fmap in Hv' as (rv' & -> & Hrv').
    rewrite Forall_forall in Hfree. cbn in *.
    apply (f_equal last_word) in Hd.
    rewrite !last_word_label in Hd by (apply Hfree; assumption).
    apply chars_inj, Hd. }
  assert (Hne1 : available_voices w1 <> []).
  { cbn. unfold voices. destruct catalog; [congruence | discriminate]. }
  destruct (sidebar_voice_picker_selects w1 None Hne1)
    as (d & v & j & Hd & Hj & Hv & Hdv & Hrun).
  specialize (Hd eq_refl). cbn [w1 set_available_voices available_voices] in Hd, Hj, Hv.
  unfold bind. rewrite Hinit, Hrun. cbn [fst snd set_selected_voice selected_voice
    available_voices w1 set_available_voices].
  split; [reflexivity|]. split; [exact Hnames|]. rewrite <- Hnames. split.
  - intros Hin. pose proof (default_idx_present _ Hin) as Hpre.
    rewrite list_lookup_fmap in Hpre, Hd.
    destruct (voices !! default_idx (map name voices)) as [v0|] eqn:Hv0; [|discriminate].
    cbn in Hpre, Hd. injection Hpre as Hn0. injection Hd as Hd0. rewrite <- Hn0.
    apply Hinj; [eapply list_elem_of_lookup_2; exact Hv
                | eapply list_elem_of_lookup_2; exact Hv0 | congruence].
  - intros Hnin. rewrite (default_idx_absent _ Hnin) in Hd.
    destruct voices as [|v1 vs]; [discriminate Hd|]. cbn in Hd. injection Hd as <-.
    cbn in Hj. rewrite String.eqb_refl in Hj. injection Hj as <-.
    cbn in Hv. injection Hv as <-. reflexivity.
Qed.

Lemma loaded_catalogue_selects_default_witness :
  selected_voice
    ((initialize_voices (Ok example_catalog) >> sidebar_voice_picker None)
       (set_selected_voice "fr-FR-DeniseNeural" (initial_world ∅))).2
  = Config.DEFAULT_VOICE.
Proof.
  refine (proj1 (proj2 (proj2 (loaded_catalogue_selects_default example_catalog
            (set_selected_voice "fr-FR-DeniseNeural" (initial_world ∅)) _ _))) _).
  - discriminate.
  - repeat constructor; unfold space_free; cbn; intuition discriminate.
  - apply list_elem_of_In. cbn. auto.
Defined.

(** X17.  When the catalogue cannot be loaded the script goes on: the
    failure is reported, the catalogue is empty, the picker reports that no
    voices are available, and the voice selected before stays selected. *)
Theorem failed_catalogue_keeps_voice (e : exn) (pick : option nat) (w : World) :
  ((initialize_voices (Fails e) >> sidebar_voice_picker pick) w).1 = Normal tt /\
  available_voices ((initialize_voices (Fails e) >> sidebar_voice_picker pick) w).2 = [] /\
  selected_voice ((initialize_voices (Fails e) >> sidebar_voice_picker pick) w).2
  = selected_voice w /\
  ui ((initialize_voices (Fails e) >> sidebar_voice_picker pick) w).2
  = ui w ++ [UiError ("Error getting voices: " +:+ exn_str e);
             UiWarning "No voices available"].
Proof.
  cbn. rewrite <- app_assoc. repeat split.
Qed.

(** X18.  [generate_speech] never raises: it answers whether the speech
    was saved, asks the synthesiser once, with the voice selected at that
    moment, and a failure is reported on the page, naming that voice when
    no audio was received. *)
Theorem generate_speech_never_raises (env : Env) (text f : string) (w : World) :
  (generate_speech env text f w).1
  = Normal (match tts_save env with Ok _ => true | Fails _ => false end) /\
  tts_requests (generate_speech env text f w).2
  = tts_requests w ++ [(text, selected_voice w)] /\
  ui (generate_speech env text f w).2
  = ui w ++ match tts_save env with
            | Ok _ => []
            | Fails e =>
                match exn_cls e with
                | NoAudioReceived =>
                    [UiError ("Voice " +:+ selected_voice w +:+ " failed to generate speech")]
                | _ => [UiError ("Error generating speech: " +:+ exn_str e)]
                end
            end /\
  chat_history (generate_speech env text f w).2 = chat_history w /\
  selected_voice (generate_speech env text f w).2 = selected_voice w.
Proof.
  destruct (generate_speech_spec env text f w)
    as (w' & -> & (Hh & _ & Hv & _) & _ & Ht & _ & Hu).
  cbn. auto.
Qed.

(** X19.  When the recorded audio was transcribed but its file cannot be
    removed, the cycle stops there: the user turn stays in the history, the
    model is not asked and nothing is spoken, and the failure of the removal
    is what is reported. *)
Theorem failed_removal_keeps_user_turn (env : Env) (w : World) (t : string) (e : exn) :
  transcribed env w t ->
  remove_audio env = Fails e ->
  (transcribe_and_generate_response env w).1 = Normal tt /\
  chat_history (transcribe_and_generate_response env w).2
  = chat_history w ++ [user_turn t] /\
  llm_requests (transcribe_and_generate_response env w).2 = llm_requests w /\
  tts_requests (transcribe_and_generate_response env w).2 = tts_requests w /\
  exists evs,
    ui (transcribe_and_generate_response env w).2
    = ui w ++ [UiWrite "Please speak something..."] ++ error_report env e ++ evs.
Proof.
  intros Ht Hrm.
  destruct (cycle_effects env w) as (evs0 & _ & _ & _ & _ & Htts).
  pose proof (cycle_cases env w) as Hc.
  destruct (transcribe_and_generate_response env w) as [r w']. cbn in *.
  inversion Hc as [w1 evs1 Hno| t1 e1 w1 evs1 Ht1 Hrm1 Hh Hl Hu
                  | t1 e1 w1 evs1 _ Hrm1
                  | t1 a1 w1 _ Hrm1]; subst.
  - destruct (Hno t Ht).
  - assert (t1 = t) by (eapply transcribed_functional; eassumption).
    assert (e1 = e) by congruence. subst.
    rewrite app_nil_r in Htts. repeat split; try assumption. exists evs1. exact Hu.
  - congruence.
  - congruence.
Qed.

Lemma failed_removal_keeps_user_turn_witness :
  chat_history
    (transcribe_and_generate_response
       (mkEnv "/app" (fun e => "Traceback: " +:+ exn_str e) (Ok tt) (Ok "RIFF") "0001"
              (Ok tt) (Ok tt) (Ok "hello") (Fails (mkExn OtherException "busy"))
              (Ok "hi there") "0002" (Ok tt) false (Ok tt) (Ok tt) (Ok tt)
              (fun _ => Ok tt))
       (initial_world ∅)).2
  = [user_turn "hello"].
Proof.
  refine (proj1 (proj2 (failed_removal_keeps_user_turn
            (mkEnv "/app" (fun e => "Traceback: " +:+ exn_str e) (Ok tt) (Ok "RIFF") "0001"
                   (Ok tt) (Ok tt) (Ok "hello") (Fails (mkExn OtherException "busy"))
                   (Ok "hi there") "0002" (Ok tt) false (Ok tt) (Ok tt) (Ok tt)
              (fun _ => Ok tt))
            (initial_world ∅) "hello" (mkExn OtherException "busy") _ _))).
  - repeat split; try reflexivity.
    + exists "RIFF". split; [reflexivity | discriminate].
    + vm_compute. discriminate.
  - reflexivity.
Defined.


